(** * chesster: the drag-and-drop module [client/src/lib/drag.ts]

    A shallow embedding of the module and of the part of the browser it
    talks to, followed by the properties of the drag lifecycle.

    - The document is a forest of element identities (the children of the
      Document node); per-element data (attributes, inline style) lives in
      tables indexed by element identity, the way every JS object carries
      its own fields.
    - The module's eleven [let] variables form the record [Vars].
    - A handler is a computation in the monad [JS]: it transforms the world
      and either returns or lets an exception propagate; writes made before
      the exception stay.
    - What the browser computes from layout ([getBoundingClientRect],
      [elementFromPoint]), what it makes of a selector that is more than a
      plain attribute name, and what the consumer's callbacks do to the
      document are parameters of the development.
    - JS numbers are idealised as rationals. *)

From Stdlib Require Import QArith Ascii.
From stdpp Require Import base option list strings gmap functions.

Local Open Scope string_scope.
Local Open Scope list_scope.

(** ** Elements, rectangles, events *)

(** Identity of a DOM node object. *)
Definition elem := nat.

(** Identity of a consumer-supplied function object. *)
Definition fn := nat.

(** [DOMRect]. *)
Record DOMRect := { rect_x : Q; rect_y : Q; width : Q; height : Q }.

(** [type Position = { x: number; y: number }]. *)
Record Position := { x : Q; y : Q }.

(** The fields of a [MouseEvent] the module reads. *)
Record MouseEvent := {
  clientX : Q;
  clientY : Q;
  target : elem;          (* innermost element under the pointer *)
  currentTarget : elem    (* element whose listener is running *)
}.

(** A value assigned to an inline style property: the template string
    [`${n}px`] or a keyword. *)
Inductive css_value :=
| Px (n : Q)
| Kw (s : string).

(** ** The document tree *)

Local Unset Elimination Schemes.
Inductive tree := T (node : elem) (kids : list tree).
Local Set Elimination Schemes.

Definition root (t : tree) : elem := let 'T e _ := t in e.

(** All nodes of a forest, in tree order. *)
Fixpoint ids (t : tree) : list elem :=
  let 'T e ks := t in e :: flat_map ids ks.
Definition ids_f (f : list tree) : list elem := flat_map ids f.

(** The first result among the trees of a forest, in tree order. *)
Definition first_some {A B} (f : A → option B) (l : list A) : option B :=
  head (omap f l).

(** Strict ancestors of [h], nearest first; [None] when [h] is not in the
    tree. *)
Fixpoint anc (h : elem) (t : tree) : option (list elem) :=
  let 'T e ks := t in
  if decide (e = h) then Some []
  else (λ p, p ++ [e]) <$> first_some (anc h) ks.
Definition anc_f (h : elem) (f : list tree) : option (list elem) :=
  first_some (anc h) f.

(** Inclusive ancestors of [h]: [h], its parent, ..., the root. *)
Definition inclusive_ancestors (f : list tree) (h : elem) : list elem :=
  h :: default [] (anc_f h f).

(** [node.parentNode]. *)
Definition parentNode (f : list tree) (e : elem) : option elem :=
  anc_f e f ≫= head.

(** The children of [z], in order ([z.childNodes]). *)
Fixpoint kids_of (z : elem) (t : tree) : option (list elem) :=
  let 'T e ks := t in
  if decide (e = z) then Some (root <$> ks)
  else first_some (kids_of z) ks.
Definition childNodes (f : list tree) (z : elem) : list elem :=
  default [] (first_some (kids_of z) f).

(** The subtree rooted at [e], when [e] is in the tree. *)
Fixpoint find_subtree (e : elem) (t : tree) : option tree :=
  let 'T n ks := t in
  if decide (n = e) then Some t
  else first_some (find_subtree e) ks.
Definition find_subtree_f (e : elem) (f : list tree) : option tree :=
  first_some (find_subtree e) f.

(** The forest without the subtrees rooted at [e]. *)
Fixpoint prune (e : elem) (t : tree) : tree :=
  let 'T n ks := t in
  T n (filter (λ k, root k ≠ e) (prune e <$> ks)).
Definition prune_f (e : elem) (f : list tree) : list tree :=
  filter (λ k, root k ≠ e) (prune e <$> f).

(** [s] appended after the last child of [z]. *)
Fixpoint graft (z : elem) (s : tree) (t : tree) : tree :=
  let 'T n ks := t in
  if decide (n = z) then T n (ks ++ [s])
  else T n (graft z s <$> ks).
Definition graft_f (z : elem) (s : tree) (f : list tree) : list tree :=
  graft z s <$> f.

(** ** The page *)

(** What a node is: an element of the HTML namespace (an [HTMLElement]),
    an element of another namespace (SVG, MathML, ...), or a node that is
    not an element (text, comment, ...). *)
Inductive node_kind := HTMLElementNode | OtherElementNode | OtherNode.

(** The part of the browser's state that both the module and consumer code
    can see and change: an HTML document. *)
Record Dom := {
  document : list tree;                     (* children of the Document node *)
  body : option elem;                       (* [document.body]; [null] when
                                               the document has no body *)
  nodeKind : elem → node_kind;
  attributes : elem → list string;          (* names of the attributes set,
                                               as they are stored *)
  style : elem → gmap string css_value      (* [element.style] *)
}.

Definition with_document (f : list tree) (d : Dom) : Dom :=
  {| document := f; body := body d; nodeKind := nodeKind d;
     attributes := attributes d; style := style d |}.

Definition with_style (s : elem → gmap string css_value) (d : Dom) : Dom :=
  {| document := document d; body := body d; nodeKind := nodeKind d;
     attributes := attributes d; style := s |}.

(** [node instanceof HTMLElement]. *)
Definition isHTMLElement (d : Dom) (e : elem) : bool :=
  match nodeKind d e with
  | HTMLElementNode => true
  | _ => false
  end.

(** [node instanceof Element]. *)
Definition isElement (d : Dom) (e : elem) : bool :=
  match nodeKind d e with
  | OtherNode => false
  | _ => true
  end.

(** ASCII lower case. *)
Definition lower_ascii (c : ascii) : ascii :=
  let n := nat_of_ascii c in
  if (65 <=? n)%nat && (n <=? 90)%nat then ascii_of_nat (n + 32) else c.

Fixpoint lower (s : string) : string :=
  match s with
  | EmptyString => EmptyString
  | String c r => String (lower_ascii c) (lower r)
  end.

(** [element.hasAttribute(a)]: on an HTML element of an HTML document the
    name asked for is put in ASCII lower case before it is compared with
    the stored names; on any other element it is compared as written. *)
Definition hasAttribute (d : Dom) (a : string) (e : elem) : bool :=
  bool_decide ((if isHTMLElement d e then lower a else a) ∈ attributes d e).

(** [`${v}`] for a variable holding a string or [null]. *)
Definition template (v : option string) : string := default "null" v.

(** *** Selectors

    The module builds its two selectors by placing the marker between
    square brackets.  When the marker is a plain name, a letter or an
    underscore followed by letters, digits, hyphens and underscores, the
    text is the attribute selector of that name: it matches the elements
    (of any namespace) that have the attribute, the name being compared as
    [hasAttribute] compares it.  What any other marker gives is left to the
    browser's parser: no selector at all (the query throws a [SyntaxError]),
    or some selector with its own way of matching. *)

Definition is_letter (c : ascii) : bool :=
  let n := nat_of_ascii c in
  ((65 <=? n)%nat && (n <=? 90)%nat) || ((97 <=? n)%nat && (n <=? 122)%nat).

Definition is_digit (c : ascii) : bool :=
  let n := nat_of_ascii c in (48 <=? n)%nat && (n <=? 57)%nat.

Definition name_start (c : ascii) : bool :=
  is_letter c || Ascii.eqb c "_".

Definition name_char (c : ascii) : bool :=
  name_start c || is_digit c || Ascii.eqb c "-".

Fixpoint name_chars (s : string) : bool :=
  match s with
  | EmptyString => true
  | String c r => name_char c && name_chars r
  end.

Definition plain_name (a : string) : bool :=
  match a with
  | EmptyString => false
  | String c r => name_start c && name_chars r
  end.

Section Selectors.

(** The browser's reading of [`[${a}]`] for a marker [a] that is not a plain
    name: [None] when the text is not a selector. *)
Variable other_selector : string → option (Dom → elem → bool).

Definition attribute_selector (a : string) : option (Dom → elem → bool) :=
  if plain_name a
  then Some (λ d e, isElement d e && hasAttribute d a e)
  else other_selector a.

(** [document.querySelectorAll(`[${a}]`)]: the nodes of the document the
    selector matches, in tree order; [None] for the [SyntaxError]. *)
Definition querySelectorAll (d : Dom) (a : string) : option (list elem) :=
  (λ sel, filter (λ e, sel d e = true) (ids_f (document d)))
    <$> attribute_selector a.

(** [h.closest(`[${a}]`)]: the nearest inclusive ancestor of [h] the
    selector matches, if any; [None] for the [SyntaxError]. *)
Definition closest (d : Dom) (a : string) (h : elem) : option (option elem) :=
  (λ sel, List.find (sel d) (inclusive_ancestors (document d) h))
    <$> attribute_selector a.

End Selectors.

(** Whether the browser keeps the declaration [p: v].  An assignment of a
    value the property does not have is ignored.  The module assigns pixel
    lengths to width, height, top and left, "absolute" to position, "none"
    to display, which are kept, and "visible" to display, which is no value
    of that property. *)
Definition css_accepts (p : string) (v : css_value) : bool :=
  match v with
  | Kw s => negb (String.eqb p "display" && String.eqb s "visible")
  | Px _ => true
  end.

(** [e.style[p] = v]: the declaration is stored when the browser keeps it,
    and the style is left as it was otherwise. *)
Definition style_set (e : elem) (p : string) (v : css_value) (d : Dom) : Dom :=
  if css_accepts p v
  then with_style (<[e := <[p := v]> (style d e)]> (style d)) d
  else d.

(** [e.style.cssText = ""]: every inline declaration is removed. *)
Definition style_clear (e : elem) (d : Dom) : Dom :=
  with_style (<[e := ∅]> (style d)) d.

(** The tree after [z.appendChild(e)]: [e] and its subtree leave their
    place and become the last child of [z].  An [e] that is not in the
    document comes without children. *)
Definition moved (z e : elem) (f : list tree) : list tree :=
  graft_f z (default (T e []) (find_subtree_f e f)) (prune_f e f).

(** ** The module's variables *)

(** The three functions of the module that are registered as listeners. *)
Inductive handler := HdragStart | HdragEnd | HdragMove.

Global Instance handler_eq_dec : EqDecision handler.
Proof. solve_decision. Defined.

Record Vars := {
  observer : option nat;
  dragElement : option elem;
  dragElementRect : option DOMRect;
  dragMoveCallback : option fn;
  dragStartCallback : option fn;
  dragEndCallback : option fn;
  dropzoneAttribute : option string;
  draggableAttribute : option string;
  startingMousePosition : option Position;
  isMouseDown : bool;
  isDragging : bool
}.

(** The values after the module is loaded. *)
Definition initial_vars : Vars :=
  {| observer := None; dragElement := None; dragElementRect := None;
     dragMoveCallback := None; dragStartCallback := None;
     dragEndCallback := None; dropzoneAttribute := None;
     draggableAttribute := None; startingMousePosition := None;
     isMouseDown := false; isDragging := false |}.

Definition set_observer (x : option nat) (v : Vars) : Vars :=
  {| observer := x; dragElement := dragElement v;
     dragElementRect := dragElementRect v;
     dragMoveCallback := dragMoveCallback v;
     dragStartCallback := dragStartCallback v;
     dragEndCallback := dragEndCallback v;
     dropzoneAttribute := dropzoneAttribute v;
     draggableAttribute := draggableAttribute v;
     startingMousePosition := startingMousePosition v;
     isMouseDown := isMouseDown v; isDragging := isDragging v |}.

Definition set_dragElement (x : option elem) (v : Vars) : Vars :=
  {| observer := observer v; dragElement := x;
     dragElementRect := dragElementRect v;
     dragMoveCallback := dragMoveCallback v;
     dragStartCallback := dragStartCallback v;
     dragEndCallback := dragEndCallback v;
     dropzoneAttribute := dropzoneAttribute v;
     draggableAttribute := draggableAttribute v;
     startingMousePosition := startingMousePosition v;
     isMouseDown := isMouseDown v; isDragging := isDragging v |}.

Definition set_dragElementRect (x : option DOMRect) (v : Vars) : Vars :=
  {| observer := observer v; dragElement := dragElement v;
     dragElementRect := x;
     dragMoveCallback := dragMoveCallback v;
     dragStartCallback := dragStartCallback v;
     dragEndCallback := dragEndCallback v;
     dropzoneAttribute := dropzoneAttribute v;
     draggableAttribute := draggableAttribute v;
     startingMousePosition := startingMousePosition v;
     isMouseDown := isMouseDown v; isDragging := isDragging v |}.

Definition set_dragMoveCallback (x : option fn) (v : Vars) : Vars :=
  {| observer := observer v; dragElement := dragElement v;
     dragElementRect := dragElementRect v;
     dragMoveCallback := x;
     dragStartCallback := dragStartCallback v;
     dragEndCallback := dragEndCallback v;
     dropzoneAttribute := dropzoneAttribute v;
     draggableAttribute := draggableAttribute v;
     startingMousePosition := startingMousePosition v;
     isMouseDown := isMouseDown v; isDragging := isDragging v |}.

Definition set_dragStartCallback (x : option fn) (v : Vars) : Vars :=
  {| observer := observer v; dragElement := dragElement v;
     dragElementRect := dragElementRect v;
     dragMoveCallback := dragMoveCallback v;
     dragStartCallback := x;
     dragEndCallback := dragEndCallback v;
     dropzoneAttribute := dropzoneAttribute v;
     draggableAttribute := draggableAttribute v;
     startingMousePosition := startingMousePosition v;
     isMouseDown := isMouseDown v; isDragging := isDragging v |}.

Definition set_dragEndCallback (x : option fn) (v : Vars) : Vars :=
  {| observer := observer v; dragElement := dragElement v;
     dragElementRect := dragElementRect v;
     dragMoveCallback := dragMoveCallback v;
     dragStartCallback := dragStartCallback v;
     dragEndCallback := x;
     dropzoneAttribute := dropzoneAttribute v;
     draggableAttribute := draggableAttribute v;
     startingMousePosition := startingMousePosition v;
     isMouseDown := isMouseDown v; isDragging := isDragging v |}.

Definition set_dropzoneAttribute (x : option string) (v : Vars) : Vars :=
  {| observer := observer v; dragElement := dragElement v;
     dragElementRect := dragElementRect v;
     dragMoveCallback := dragMoveCallback v;
     dragStartCallback := dragStartCallback v;
     dragEndCallback := dragEndCallback v;
     dropzoneAttribute := x;
     draggableAttribute := draggableAttribute v;
     startingMousePosition := startingMousePosition v;
     isMouseDown := isMouseDown v; isDragging := isDragging v |}.

Definition set_draggableAttribute (x : option string) (v : Vars) : Vars :=
  {| observer := observer v; dragElement := dragElement v;
     dragElementRect := dragElementRect v;
     dragMoveCallback := dragMoveCallback v;
     dragStartCallback := dragStartCallback v;
     dragEndCallback := dragEndCallback v;
     dropzoneAttribute := dropzoneAttribute v;
     draggableAttribute := x;
     startingMousePosition := startingMousePosition v;
     isMouseDown := isMouseDown v; isDragging := isDragging v |}.

Definition set_startingMousePosition (x : option Position) (v : Vars) : Vars :=
  {| observer := observer v; dragElement := dragElement v;
     dragElementRect := dragElementRect v;
     dragMoveCallback := dragMoveCallback v;
     dragStartCallback := dragStartCallback v;
     dragEndCallback := dragEndCallback v;
     dropzoneAttribute := dropzoneAttribute v;
     draggableAttribute := draggableAttribute v;
     startingMousePosition := x;
     isMouseDown := isMouseDown v; isDragging := isDragging v |}.

Definition set_isMouseDown (x : bool) (v : Vars) : Vars :=
  {| observer := observer v; dragElement := dragElement v;
     dragElementRect := dragElementRect v;
     dragMoveCallback := dragMoveCallback v;
     dragStartCallback := dragStartCallback v;
     dragEndCallback := dragEndCallback v;
     dropzoneAttribute := dropzoneAttribute v;
     draggableAttribute := draggableAttribute v;
     startingMousePosition := startingMousePosition v;
     isMouseDown := x; isDragging := isDragging v |}.

Definition set_isDragging (x : bool) (v : Vars) : Vars :=
  {| observer := observer v; dragElement := dragElement v;
     dragElementRect := dragElementRect v;
     dragMoveCallback := dragMoveCallback v;
     dragStartCallback := dragStartCallback v;
     dragEndCallback := dragEndCallback v;
     dropzoneAttribute := dropzoneAttribute v;
     draggableAttribute := draggableAttribute v;
     startingMousePosition := startingMousePosition v;
     isMouseDown := isMouseDown v; isDragging := x |}.

(** [Partial<DragOptions>]: an absent field, [undefined] and [null] are
    all [None]. *)
Module DragOptions.
Record t := {
  draggableAttribute : option string;
  dropzoneAttribute : option string;
  dragMoveCallback : option fn;
  dragStartCallback : option fn;
  dragEndCallback : option fn
}.
End DragOptions.

(** JS truthiness of an optional string: present and not empty. *)
Definition truthy (o : option string) : bool :=
  match o with
  | Some s => negb (String.eqb s "")
  | None => false
  end.

(** ** The world and the monad of handlers *)

(** One entry of a node's registered observer list. *)
Record Registered := {
  reg_observer : nat;        (* the MutationObserver object *)
  reg_target : elem;         (* the node it observes *)
  reg_childList : bool;
  reg_subtree : bool
}.

(** What a handler does that is visible outside the page. *)
Inductive effect :=
| PreventDefault                                   (* [event.preventDefault()] *)
| Warn (msg : string)                              (* [console.warn(msg)] *)
| Call (f : fn) (args : list elem) (d : Dom).      (* [f(...args)], entered on page [d] *)

Record World := {
  vars : Vars;
  dom : Dom;
  listeners : elem → list (string * handler);   (* the module's listeners *)
  registered : list Registered;                 (* mutation observers in force *)
  constructed : nat;                            (* MutationObserver objects built so far *)
  log : list effect
}.

Definition with_vars (v : Vars) (w : World) : World :=
  {| vars := v; dom := dom w; listeners := listeners w;
     registered := registered w; constructed := constructed w; log := log w |}.

Definition with_dom (d : Dom) (w : World) : World :=
  {| vars := vars w; dom := d; listeners := listeners w;
     registered := registered w; constructed := constructed w; log := log w |}.

Definition with_listeners (l : elem → list (string * handler)) (w : World) : World :=
  {| vars := vars w; dom := dom w; listeners := l;
     registered := registered w; constructed := constructed w; log := log w |}.

Definition with_registered (r : list Registered) (w : World) : World :=
  {| vars := vars w; dom := dom w; listeners := listeners w;
     registered := r; constructed := constructed w; log := log w |}.

Definition with_constructed (n : nat) (w : World) : World :=
  {| vars := vars w; dom := dom w; listeners := listeners w;
     registered := registered w; constructed := n; log := log w |}.

Definition with_log (l : list effect) (w : World) : World :=
  {| vars := vars w; dom := dom w; listeners := listeners w;
     registered := registered w; constructed := constructed w; log := l |}.

(** A computation changes the world and returns a value, or ([None]) lets
    an exception propagate to its caller. *)
Definition JS (A : Type) : Type := World → World * option A.

Global Instance JS_ret : MRet JS := λ A a w, (w, Some a).
Global Instance JS_bind : MBind JS := λ A B k m w,
  match m w with
  | (w', Some a) => k a w'
  | (w', None) => (w', None)
  end.

Definition throw {A} : JS A := λ w, (w, None).

Definition getv {A} (f : Vars → A) : JS A := λ w, (w, Some (f (vars w))).
Definition setv (f : Vars → Vars) : JS unit :=
  λ w, (with_vars (f (vars w)) w, Some ()).
Definition getdom : JS Dom := λ w, (w, Some (dom w)).
Definition setdom (f : Dom → Dom) : JS unit :=
  λ w, (with_dom (f (dom w)) w, Some ()).
Definition emit (e : effect) : JS unit :=
  λ w, (with_log (log w ++ [e]) w, Some ()).

(** Using the result of an operation that may throw, or a property of a
    variable that may hold [null] (a [TypeError] when it does). *)
Definition deref {A} (o : option A) : JS A :=
  match o with
  | Some a => mret a
  | None => throw
  end.

(** [for (const a of l) { body(a) }]. *)
Fixpoint for_each {A} (l : list A) (body : A → JS unit) : JS unit :=
  match l with
  | [] => mret ()
  | a :: r => body a;; for_each r body
  end.

(** [z.appendChild(e)]: a [HierarchyRequestError] when [e] is an inclusive
    ancestor of [z]. *)
Definition appendChild (z e : elem) : JS unit :=
  d ← getdom;
  if decide (e ∈ inclusive_ancestors (document d) z) then throw
  else setdom (with_document (moved z e (document d))).

(** [e.addEventListener(type, h)]: a listener already in the list with the
    same type and callback is not added again. *)
Definition addEventListener (e : elem) (type : string) (h : handler) : JS unit :=
  λ w,
    if decide ((type, h) ∈ listeners w e) then (w, Some ())
    else (with_listeners (<[e := listeners w e ++ [(type, h)]]> (listeners w)) w,
          Some ()).

(** [new MutationObserver(mutationCallback)]. *)
Definition newMutationObserver : JS nat :=
  λ w, (with_constructed (S (constructed w)) w, Some (constructed w)).

(** [o.observe(target, { childList, subtree })]: the options of an entry of
    [o] on [target] are replaced; otherwise a new entry is appended. *)
Definition observe (o : nat) (tgt : elem) (cl st : bool) : JS unit :=
  λ w,
    let entry := {| reg_observer := o; reg_target := tgt;
                    reg_childList := cl; reg_subtree := st |} in
    let same r := bool_decide (reg_observer r = o ∧ reg_target r = tgt) in
    if existsb same (registered w)
    then (with_registered
            ((λ r, if same r then entry else r) <$> registered w) w, Some ())
    else (with_registered (registered w ++ [entry]) w, Some ()).

(** The fields of a [MutationRecord] the module reads. *)
Record MutationRecord := { addedNodes : list elem }.

(** ** The module *)

Section Drag.

(** The host: layout is not modelled, so the two queries that depend on
    it are parameters, and so are the selectors beyond plain names and what
    a consumer function does to the page when it is called (the [bool] tells
    whether it returned, [true], or threw). *)
Variable getBoundingClientRect : Dom → elem → DOMRect.
Variable elementFromPoint : Dom → Q → Q → option elem.
Variable other_selector : string → option (Dom → elem → bool).
Variable consumer : fn → list elem → Dom → Dom * bool.

(** [document.elementFromPoint(x, y)]: the answer is an element of the
    document, or [null]. *)
Definition document_elementFromPoint (d : Dom) (cx cy : Q) : option elem :=
  match elementFromPoint d cx cy with
  | Some h =>
      if bool_decide (h ∈ ids_f (document d)) && isElement d h
      then Some h else None
  | None => None
  end.

(** [f(...args)] for a consumer function [f]. *)
Definition call (f : fn) (args : list elem) : JS unit :=
  λ w,
    let r := consumer f args (dom w) in
    (with_dom r.1 (with_log (log w ++ [Call f args (dom w)]) w),
     if r.2 then Some () else None).

(** Reading [dragElement] / [dragElementRect] to use their properties. *)
Definition the_dragElement : JS elem := getv dragElement ≫= deref.
Definition the_dragElementRect : JS DOMRect := getv dragElementRect ≫= deref.

Definition addEventListeners (element : elem) : JS unit :=
  addEventListener element "mousedown" HdragStart;;
  addEventListener element "mouseup" HdragEnd;;
  addEventListener element "mousemove" HdragMove.

Definition moveElementToCursor
    (element : elem) (rect : DOMRect) (mouseEvent : MouseEvent) : JS unit :=
  let x := (clientX mouseEvent - width rect / 2)%Q in
  let y := (clientY mouseEvent - height rect / 2)%Q in
  setdom (style_set element "top" (Px y));;
  setdom (style_set element "left" (Px x)).

Definition dragStart (event : MouseEvent) : JS unit :=
  setv (set_isDragging false);;
  setv (set_isMouseDown true);;
  emit PreventDefault;;
  setv (set_dragElement (Some (currentTarget event)));;
  (el ← the_dragElement; d ← getdom;
   setv (set_dragElementRect (Some (getBoundingClientRect d el))));;
  (cb ← getv dragStartCallback;
   match cb with
   | Some f => el ← the_dragElement; call f [el]
   | None => mret ()
   end);;
  (el ← the_dragElement; r ← the_dragElementRect;
   setdom (style_set el "width" (Px (width r))));;
  (el ← the_dragElement; r ← the_dragElementRect;
   setdom (style_set el "height" (Px (height r))));;
  setv (set_startingMousePosition
          (Some {| x := clientX event; y := clientY event |}));;
  (el ← the_dragElement; r ← the_dragElementRect;
   moveElementToCursor el r event);;
  (el ← the_dragElement;
   setdom (style_set el "position" (Kw "absolute"))).

Definition dragEnd (event : MouseEvent) : JS unit :=
  setv (set_isMouseDown false);;
  emit PreventDefault;;
  cur ← getv dragElement;
  match cur with
  | None => mret ()
  | Some _ =>
      (el ← the_dragElement; setdom (style_set el "display" (Kw "none")));;
      elUnderCursor ← (d ← getdom;
                       mret (document_elementFromPoint d
                               (clientX event) (clientY event)));
      (el ← the_dragElement; setdom (style_set el "display" (Kw "visible")));;
      match elUnderCursor with
      | Some h =>
          found ← (a ← getv dropzoneAttribute; d ← getdom;
                   deref (closest other_selector d (template a) h));
          match found with
          | Some dropzoneElement =>
              (el ← the_dragElement; appendChild dropzoneElement el);;
              cb ← getv dragEndCallback;
              match cb with
              | Some f => el ← the_dragElement; call f [el; dropzoneElement]
              | None => mret ()
              end
          | None => mret ()
          end
      | None => mret ()
      end;;
      (el ← the_dragElement; setdom (style_clear el));;
      setv (set_dragElement None);;
      setv (set_dragElementRect None);;
      setv (set_startingMousePosition None)
  end.

Definition dragMove (event : MouseEvent) : JS unit :=
  el ← getv dragElement; r ← getv dragElementRect; down ← getv isMouseDown;
  match el, r, down with
  | Some _, Some _, true =>
      setv (set_isDragging true);;
      (el ← the_dragElement; r ← the_dragElementRect;
       moveElementToCursor el r event);;
      cb ← getv dragMoveCallback;
      match cb with
      | Some f => el ← the_dragElement; call f [el]
      | None => mret ()
      end
  | _, _, _ => mret ()
  end.

Definition mutationCallback (records : list MutationRecord) : JS unit :=
  for_each records (λ record,
    for_each (addedNodes record) (λ addedNode,
      d ← getdom; a ← getv draggableAttribute;
      if isHTMLElement d addedNode && hasAttribute d (template a) addedNode
      then addEventListeners addedNode
      else mret ())).

Definition configureDragAndDrop (dragOptions : DragOptions.t) : JS unit :=
  match DragOptions.dragMoveCallback dragOptions with
  | Some f => setv (set_dragMoveCallback (Some f))
  | None => mret ()
  end;;
  match DragOptions.dragStartCallback dragOptions with
  | Some f => setv (set_dragStartCallback (Some f))
  | None => mret ()
  end;;
  match DragOptions.dragEndCallback dragOptions with
  | Some f => setv (set_dragEndCallback (Some f))
  | None => mret ()
  end;;
  (if truthy (DragOptions.dropzoneAttribute dragOptions)
   then setv (set_dropzoneAttribute (DragOptions.dropzoneAttribute dragOptions))
   else mret ());;
  (if truthy (DragOptions.draggableAttribute dragOptions)
   then setv (set_draggableAttribute (DragOptions.draggableAttribute dragOptions))
   else mret ());;
  elements ← (a ← getv draggableAttribute; d ← getdom;
              deref (querySelectorAll other_selector d (template a)));
  (if decide (length elements = 0)
   then a ← getv draggableAttribute;
        emit (Warn ("No elements with '" +:+ template a +:+ "' in the DOM"))
   else mret ());;
  for_each elements addEventListeners;;
  (o ← newMutationObserver; setv (set_observer (Some o)));;
  (o ← getv observer ≫= deref; d ← getdom; b ← deref (body d);
   observe o b true true).

(** *** Event dispatch

    The browser runs the listeners of the event's type on the target and
    then on each of its ancestors (the module registers its listeners for
    the bubbling phase), with [currentTarget] set to the node whose
    listener is running.  An exception thrown by a listener is reported
    and does not stop the dispatch. *)

Definition run_handler (h : handler) : MouseEvent → JS unit :=
  match h with
  | HdragStart => dragStart
  | HdragEnd => dragEnd
  | HdragMove => dragMove
  end.

Definition reported (m : JS unit) : JS unit := λ w, ((m w).1, Some ()).

Definition dispatch (type : string) (tgt : elem) (cx cy : Q) : JS unit :=
  d ← getdom;
  for_each (inclusive_ancestors (document d) tgt) (λ node,
    ls ← (λ w, (w, Some (listeners w node)));
    for_each (filter (λ l, l.1 = type) ls) (λ l,
      reported (run_handler l.2
                  {| clientX := cx; clientY := cy;
                     target := tgt; currentTarget := node |}))).

End Drag.


(** ** Vocabulary of the statements *)

(** Running a computation for its final world. *)
Definition exec {A} (m : JS A) (w : World) : World := (m w).1.

(** The computation returned (no exception propagated). *)
Definition returns {A} (m : JS A) (w : World) : Prop := is_Some (m w).2.

(** The listener list after [addEventListeners]. *)
Definition add_listener (x : string * handler) (l : list (string * handler)) :=
  if decide (x ∈ l) then l else l ++ [x].

Definition attached (l : list (string * handler)) : list (string * handler) :=
  add_listener ("mousemove", HdragMove)
    (add_listener ("mouseup", HdragEnd)
       (add_listener ("mousedown", HdragStart) l)).

(** Two worlds that differ at most in the listener table. *)
Definition same_but_listeners (w w' : World) : Prop :=
  vars w' = vars w ∧ dom w' = dom w ∧ log w' = log w ∧
  registered w' = registered w ∧ constructed w' = constructed w.

(** The test the watcher applies to an added node. *)
Definition qualifies (w : World) (e : elem) : bool :=
  isHTMLElement (dom w) e &&
  hasAttribute (dom w) (template (draggableAttribute (vars w))) e.


(** The page after [moveElementToCursor(e, r, ev)]. *)
Definition placed_at (e : elem) (r : DOMRect) (ev : MouseEvent) (d : Dom) : Dom :=
  style_set e "left" (Px (clientX ev - width r / 2))
    (style_set e "top" (Px (clientY ev - height r / 2)) d).

(** The world in which [dragStart] reaches its callback: flags set, default
    action prevented, subject and rectangle recorded. *)
Definition pressed (e : elem) (r : DOMRect) (w : World) : World :=
  with_log (log w ++ [PreventDefault])
    (with_vars
       (set_dragElementRect (Some r)
          (set_dragElement (Some e)
             (set_isMouseDown true (set_isDragging false (vars w))))) w).

(** What [dragStart] does after its callback: size fixed, starting position
    recorded, element centred on the pointer and taken out of the flow. *)
Definition lifted (e : elem) (r : DOMRect) (ev : MouseEvent) (w : World) : World :=
  with_dom
    (style_set e "position" (Kw "absolute")
       (placed_at e r ev
          (style_set e "height" (Px (height r))
             (style_set e "width" (Px (width r)) (dom w)))))
    (with_vars
       (set_startingMousePosition
          (Some {| x := clientX ev; y := clientY ev |}) (vars w)) w).

(** The world in which [dragEnd] looks for a dropzone: flag cleared, default
    action prevented, [display] assigned "none" and then "visible"; the
    second assignment is ignored, so the subject still has the inline
    declaration [display: none]. *)
Definition released (e : elem) (w : World) : World :=
  with_dom
    (style_set e "display" (Kw "visible")
       (style_set e "display" (Kw "none") (dom w)))
    (with_log (log w ++ [PreventDefault])
       (with_vars (set_isMouseDown false (vars w)) w)).

(** The last four statements of [dragEnd]. *)
Definition cleaned (e : elem) (w : World) : World :=
  with_vars
    (set_startingMousePosition None
       (set_dragElementRect None (set_dragElement None (vars w))))
    (with_dom (style_clear e (dom w)) w).

(** The element [dragEnd] finds under the pointer for subject [e]: the
    hit-test runs on the page on which [e] has been assigned
    [display: none]. *)
Definition hit
    (elementFromPoint : Dom → Q → Q → option elem)
    (e : elem) (ev : MouseEvent) (w : World) : option elem :=
  document_elementFromPoint elementFromPoint
    (style_set e "display" (Kw "none") (dom w)) (clientX ev) (clientY ev).

(** The search of [dragEnd] for a dropzone, for subject [e]: [None] when
    [closest] throws, [Some None] when nothing is hit or no inclusive
    ancestor of the hit matches the dropzone selector, [Some (Some z)] when
    [z] is the nearest one that does. *)
Definition dropzone_found
    (elementFromPoint : Dom → Q → Q → option elem)
    (other_selector : string → option (Dom → elem → bool))
    (e : elem) (ev : MouseEvent) (w : World) : option (option elem) :=
  match hit elementFromPoint e ev w with
  | Some h =>
      closest other_selector (dom (released e w))
        (template (dropzoneAttribute (vars w))) h
  | None => Some None
  end.

(** The dropzone [e] is appended to: the one found, unless it is [e] or
    lies inside [e], when [appendChild] throws. *)
Definition drop_target
    (elementFromPoint : Dom → Q → Q → option elem)
    (other_selector : string → option (Dom → elem → bool))
    (e : elem) (ev : MouseEvent) (w : World) : option elem :=
  match dropzone_found elementFromPoint other_selector e ev w with
  | Some (Some z) =>
      if decide (e ∈ inclusive_ancestors (document (dom w)) z)
      then None else Some z
  | _ => None
  end.

(** The page on which the drop callback is entered after [e] has been
    appended to [z]. *)
Definition dropped_into (z e : elem) (w : World) : Dom :=
  with_document (moved z e (document (dom w))) (dom (released e w)).

(** What is assumed of the browser's hit-test: the element it returns is in
    the document and is rendered, that is, neither it nor any of its
    ancestors has the inline declaration [display: none]. *)
Definition hit_test_sound (elementFromPoint : Dom → Q → Q → option elem) : Prop :=
  ∀ d cx cy h,
    elementFromPoint d cx cy = Some h →
    h ∈ ids_f (document d) ∧
    ∀ a, a ∈ inclusive_ancestors (document d) h →
         style d a !! "display" ≠ Some (Kw "none").

(** The inline properties assigned by [dragStart] and [dragMove]. *)
Definition placement_properties : list string :=
  ["width"; "height"; "top"; "left"; "position"].

(** The world when the module has just been loaded into a page. *)
Definition initial_world (d : Dom) : World :=
  {| vars := initial_vars; dom := d; listeners := λ _, [];
     registered := []; constructed := 0; log := [] |}.

(** No entry of the registered observer list belongs to an observer that
    is yet to be constructed. *)
Definition observers_known (w : World) : Prop :=
  Forall (λ r, reg_observer r < constructed w) (registered w).

(** The entry [configureDragAndDrop] registers for observer [o], when the
    document has a body. *)
Definition body_entry (d : Dom) (o : nat) : option Registered :=
  (λ b, {| reg_observer := o; reg_target := b;
           reg_childList := true; reg_subtree := true |}) <$> body d.

(** ** The module as a transition system *)

Section Machine.

Variable getBoundingClientRect : Dom → elem → DOMRect.
Variable elementFromPoint : Dom → Q → Q → option elem.
Variable other_selector : string → option (Dom → elem → bool).
Variable consumer : fn → list elem → Dom → Dom * bool.

(** One thing happens: a call of the exported function, a run of the
    watcher, a run of one of the three listeners, or any change of the page
    made by other code. *)
Inductive step : World → World → Prop :=
| step_configure o w :
    step w (exec (configureDragAndDrop other_selector o) w)
| step_mutation records w :
    step w (exec (mutationCallback records) w)
| step_dragStart ev w :
    step w (exec (dragStart getBoundingClientRect consumer ev) w)
| step_dragEnd ev w :
    step w (exec (dragEnd elementFromPoint other_selector consumer ev) w)
| step_dragMove ev w :
    step w (exec (dragMove consumer ev) w)
| step_page d w :
    step w (with_dom d w).

Inductive reachable : World → Prop :=
| reachable_initial d : reachable (initial_world d)
| reachable_step w w' : reachable w → step w w' → reachable w'.

End Machine.

(** Statements proved of every tree, by induction on the tree. *)
Definition anc_closed (t : tree) : Prop :=
  ∀ h z p, NoDup (ids t) → anc h t = Some p → z ∈ p →
           ∃ q, anc z t = Some q ∧ ∀ x, x ∈ q → x ∈ p.

Definition prune_keeps_tree (e : elem) (t : tree) : Prop :=
  ∀ z p, anc z t = Some p → e ∉ z :: p → z ∈ ids (prune e t).

Definition graft_parent (z : elem) (s : tree) (t : tree) : Prop :=
  z ∈ ids t → root s ∉ ids t → ∃ q, anc (root s) (graft z s t) = Some (z :: q).


(** While the pointer is pressed there is a subject and a rectangle. *)
Definition pressed_has_subject (v : Vars) : Prop :=
  isMouseDown v = true → is_Some (dragElement v) ∧ is_Some (dragElementRect v).

(** The variables after the five conditional assignments that open
    [configureDragAndDrop]. *)
Definition merged (o : DragOptions.t) (v : Vars) : Vars :=
  let v1 := match DragOptions.dragMoveCallback o with
            | Some f => set_dragMoveCallback (Some f) v
            | None => v
            end in
  let v2 := match DragOptions.dragStartCallback o with
            | Some f => set_dragStartCallback (Some f) v1
            | None => v1
            end in
  let v3 := match DragOptions.dragEndCallback o with
            | Some f => set_dragEndCallback (Some f) v2
            | None => v2
            end in
  let v4 := if truthy (DragOptions.dropzoneAttribute o)
            then set_dropzoneAttribute (DragOptions.dropzoneAttribute o) v3
            else v3 in
  if truthy (DragOptions.draggableAttribute o)
  then set_draggableAttribute (DragOptions.draggableAttribute o) v4
  else v4.

Section Configure.

Variable other_selector : string → option (Dom → elem → bool).

(** [configureDragAndDrop] from its sixth statement on. *)
Definition discover_and_watch : JS unit :=
  elements ← (a ← getv draggableAttribute; d ← getdom;
              deref (querySelectorAll other_selector d (template a)));
  (if decide (length elements = 0)
   then a ← getv draggableAttribute;
        emit (Warn ("No elements with '" +:+ template a +:+ "' in the DOM"))
   else mret ());;
  for_each elements addEventListeners;;
  (o ← newMutationObserver; setv (set_observer (Some o)));;
  (o ← getv observer ≫= deref; d ← getdom; b ← deref (body d);
   observe o b true true).

(** Running [configureDragAndDrop] once for each entry of a list. *)
Definition configure_all (os : list DragOptions.t) : JS unit :=
  for_each os (configureDragAndDrop other_selector).

End Configure.

(** ** A page to run the module on

    [board] (0), the body, holds a dropzone [zone] (1), which holds [cell]
    (2), and a draggable [piece] (3), which holds [glyph] (4) and whose
    inline style sets a colour.  Later a [tray] (5) holding a draggable
    [spare] (6), a draggable [extra] (7), a text node [caption] (8) and an
    SVG element [icon] (9) that bears the draggable marker are inserted
    under the board. *)
Module Example.

Definition board : elem := 0.
Definition zone : elem := 1.
Definition cell : elem := 2.
Definition piece : elem := 3.
Definition glyph : elem := 4.
Definition tray : elem := 5.
Definition spare : elem := 6.
Definition extra : elem := 7.
Definition caption : elem := 8.
Definition icon : elem := 9.

Definition page : Dom :=
  {| document := [T board [T zone [T cell []]; T piece [T glyph []]]];
     body := Some board;
     nodeKind := λ e, if decide (e = caption) then OtherNode
                      else if decide (e = icon) then OtherElementNode
                      else HTMLElementNode;
     attributes := λ e, if decide (e = zone) then ["data-drop"]
                        else if decide (e ∈ [piece; spare; extra; icon])
                             then ["data-drag"]
                             else [];
     style := λ e, if decide (e = piece) then {[ "color" := Kw "red" ]}
                   else ∅ |}.

(** The page after the insertion. *)
Definition grown_page : Dom :=
  with_document
    [T board [T zone [T cell []]; T piece [T glyph []];
              T tray [T spare []]; T extra []; T caption []; T icon []]]
    page.

(** What the watcher is told about the insertion. *)
Definition insertion : list MutationRecord :=
  [{| addedNodes := [tray; extra; caption; icon] |}].

(** Every element measures 50 by 50. *)
Definition getBoundingClientRect (d : Dom) (e : elem) : DOMRect :=
  {| rect_x := 75; rect_y := 75; width := 50; height := 50 |}.

Definition hidden (d : Dom) (e : elem) : bool :=
  match style d e !! "display" with
  | Some (Kw s) => String.eqb s "none"
  | _ => false
  end.

(** The pointer is always over [cell], which is hit when it is in the
    document and rendered. *)
Definition elementFromPoint (d : Dom) (cx cy : Q) : option elem :=
  if existsb (hidden d) (inclusive_ancestors (document d) cell)
     || negb (bool_decide (cell ∈ ids_f (document d)))
  then None else Some cell.

(** The example pages are configured with plain names; a marker that is
    not a plain name is taken to be no selector. *)
Definition other_selector (a : string) : option (Dom → elem → bool) := None.

(** Consumer functions that leave the page alone and return. *)
Definition consumer (f : fn) (args : list elem) (d : Dom) : Dom * bool :=
  (d, true).

(** Consumer functions that throw at once. *)
Definition throwing (f : fn) (args : list elem) (d : Dom) : Dom * bool :=
  (d, false).

Definition options : DragOptions.t :=
  {| DragOptions.draggableAttribute := Some "data-drag";
     DragOptions.dropzoneAttribute := Some "data-drop";
     DragOptions.dragMoveCallback := Some 10;
     DragOptions.dragStartCallback := Some 11;
     DragOptions.dragEndCallback := Some 12 |}.

(** A pointer event at [(cx, cy)] delivered to the listeners of [piece]. *)
Definition at_piece (cx cy : Q) : MouseEvent :=
  {| clientX := cx; clientY := cy; target := piece; currentTarget := piece |}.

(** The module configured on the page. *)
Definition configured : World :=
  exec (configureDragAndDrop other_selector options) (initial_world page).

(** The configured module after the insertion, before the watcher runs. *)
Definition grown : World := with_dom grown_page configured.

(** The piece pressed at (100, 100). *)
Definition down : World :=
  exec (dragStart getBoundingClientRect consumer (at_piece 100 100)) configured.

(** The pointer moved to (200, 200). *)
Definition dragged : World :=
  exec (dragMove consumer (at_piece 200 200)) down.

(** The pointer released at (200, 200). *)
Definition dropped : World :=
  exec (dragEnd elementFromPoint other_selector consumer (at_piece 200 200))
    dragged.

End Example.

(** ** Vocabulary of the further properties *)

(** The marker under which [configureDragAndDrop(o)] looks for draggable
    elements: the supplied one when it is truthy, the stored one otherwise,
    as it appears in the selector. *)
Definition marker_after (o : DragOptions.t) (v : Vars) : string :=
  template (if truthy (DragOptions.draggableAttribute o)
            then DragOptions.draggableAttribute o
            else draggableAttribute v).

(** The variables that hold the configuration. *)
Definition configuration (v : Vars) :=
  (draggableAttribute v, dropzoneAttribute v,
   dragMoveCallback v, dragStartCallback v, dragEndCallback v, observer v).

(** The three session variables are set and cleared together. *)
Definition session_consistent (v : Vars) : Prop :=
  (isMouseDown v = true → is_Some (dragElement v)) ∧
  (is_Some (dragElement v) ↔ is_Some (dragElementRect v)) ∧
  (is_Some (startingMousePosition v) → is_Some (dragElement v)).

(** Consumer functions that do not restructure the document. *)
Definition keeps_document (consumer : fn → list elem → Dom → Dom * bool) : Prop :=
  ∀ f args d, document (consumer f args d).1 = document d.

(** Statements proved of every tree, by induction on the tree. *)
Definition prune_splits (e : elem) (t : tree) : Prop :=
  NoDup (ids t) → root t ≠ e → e ∈ ids t →
  ∃ s, find_subtree e t = Some s ∧ ids t ≡ₚ ids (prune e t) ++ ids s.

Definition graft_adds (z : elem) (s : tree) (t : tree) : Prop :=
  NoDup (ids t) → z ∈ ids t → ids (graft z s t) ≡ₚ ids t ++ ids s.

(** ** A page with nested draggable elements

    [board] (0), the body, holds the draggable [outer] (1), which holds the
    draggable [inner] (2), which holds [leaf] (3). *)
Module Nested.

Definition board : elem := 0.
Definition outer : elem := 1.
Definition inner : elem := 2.
Definition leaf : elem := 3.

Definition page : Dom :=
  {| document := [T board [T outer [T inner [T leaf []]]]];
     body := Some board;
     nodeKind := λ _, HTMLElementNode;
     attributes := λ e, if decide (e ∈ [outer; inner]) then ["data-drag"]
                        else [];
     style := λ _, ∅ |}.

(** The module configured on the page. *)
Definition configured : World :=
  exec (configureDragAndDrop Example.other_selector Example.options)
    (initial_world page).

End Nested.

(** ** A page on which the subject cannot be hidden

    [board] (0), the body, holds the draggable [crate] (1), which holds a
    dropzone [slot] (2).  A rule of the page's style sheet gives draggable
    elements [display: block !important], which wins over the inline
    declaration [display: none]: the crate and its slot stay rendered during
    the hit-test of [dragEnd], and the pointer, which is over the slot, hits
    it. *)
Module Sticky.

Definition board : elem := 0.
Definition crate : elem := 1.
Definition slot : elem := 2.

Definition page : Dom :=
  {| document := [T board [T crate [T slot []]]];
     body := Some board;
     nodeKind := λ _, HTMLElementNode;
     attributes := λ e, if decide (e = crate) then ["data-drag"]
                        else if decide (e = slot) then ["data-drop"]
                        else [];
     style := λ _, ∅ |}.

Definition elementFromPoint (d : Dom) (cx cy : Q) : option elem := Some slot.

Definition at_crate (cx cy : Q) : MouseEvent :=
  {| clientX := cx; clientY := cy; target := slot; currentTarget := crate |}.

Definition configured : World :=
  exec (configureDragAndDrop Example.other_selector Example.options)
    (initial_world page).

(** The crate pressed at (100, 100). *)
Definition down : World :=
  exec (dragStart Example.getBoundingClientRect Example.consumer
          (at_crate 100 100)) configured.

(** The pointer released where it was pressed. *)
Definition up : World :=
  exec (dragEnd elementFromPoint Example.other_selector Example.consumer
          (at_crate 100 100)) down.

End Sticky.

(** ** A document without a body, and a marker that is no selector *)
Module Bare.

(** A document whose root element has no body child yet (the script runs
    from the head). *)
Definition page : Dom :=
  {| document := [T 0 [T 1 []]];
     body := None;
     nodeKind := λ _, HTMLElementNode;
     attributes := λ e, if decide (e = 1) then ["data-drag"] else [];
     style := λ _, ∅ |}.

(** Options whose draggable marker carries a colon. *)
Definition colon_options : DragOptions.t :=
  {| DragOptions.draggableAttribute := Some "x:drag";
     DragOptions.dropzoneAttribute := Some "x:drop";
     DragOptions.dragMoveCallback := None;
     DragOptions.dragStartCallback := None;
     DragOptions.dragEndCallback := None |}.

End Bare.
(** * Properties *)

Set Default Proof Using "Type".

Ltac js_unfold :=
  unfold exec, returns, the_dragElement, the_dragElementRect, call,
    getv, setv, getdom, setdom, emit, deref, throw,
    mbind, JS_bind, mret, JS_ret in *.

Ltac js := js_unfold; simpl in *.

(** ** Listeners *)

Lemma same_but_listeners_refl w : same_but_listeners w w.
Proof. by repeat split. Qed.

Lemma same_but_listeners_trans w1 w2 w3 :
  same_but_listeners w1 w2 → same_but_listeners w2 w3 →
  same_but_listeners w1 w3.
Proof.
  intros (?&?&?&?&?) (?&?&?&?&?). repeat split; congruence.
Qed.

Lemma addEventListener_spec e type h w :
  (addEventListener e type h w).2 = Some () ∧
  same_but_listeners w (addEventListener e type h w).1 ∧
  ∀ e', listeners (addEventListener e type h w).1 e' =
        if decide (e' = e) then add_listener (type, h) (listeners w e)
        else listeners w e'.
Proof.
  unfold addEventListener, add_listener.
  destruct (decide ((type, h) ∈ listeners w e)); simpl.
  - split; [done|]. split; [apply same_but_listeners_refl|].
    intros e'. by destruct (decide (e' = e)) as [->|].
  - split; [done|]. split; [by repeat split|].
    intros e'. destruct (decide (e' = e)) as [->|].
    + by rewrite fn_lookup_insert.
    + by rewrite fn_lookup_insert_ne.
Qed.

Lemma addEventListeners_spec e w :
  (addEventListeners e w).2 = Some () ∧
  same_but_listeners w (addEventListeners e w).1 ∧
  ∀ e', listeners (addEventListeners e w).1 e' =
        if decide (e' = e) then attached (listeners w e) else listeners w e'.
Proof.
  unfold addEventListeners, mbind, JS_bind.
  destruct (addEventListener_spec e "mousedown" HdragStart w) as (R1 & S1 & L1).
  destruct (addEventListener e "mousedown" HdragStart w) as [w1 [[]|]];
    simpl in *; [|done].
  destruct (addEventListener_spec e "mouseup" HdragEnd w1) as (R2 & S2 & L2).
  destruct (addEventListener e "mouseup" HdragEnd w1) as [w2 [[]|]];
    simpl in *; [|done].
  destruct (addEventListener_spec e "mousemove" HdragMove w2) as (R3 & S3 & L3).
  destruct (addEventListener e "mousemove" HdragMove w2) as [w3 [[]|]];
    simpl in *; [|done].
  split; [done|]. split.
  { eauto using same_but_listeners_trans. }
  intros e'. rewrite L3. destruct (decide (e' = e)) as [->|]; [|].
  - unfold attached. rewrite L2, L1. by rewrite !decide_True by done.
  - rewrite L2, decide_False by done. by rewrite L1, decide_False by done.
Qed.

Lemma add_listener_elem x y l : x ∈ add_listener y l ↔ x = y ∨ x ∈ l.
Proof.
  unfold add_listener. destruct (decide (y ∈ l)).
  - split; [by right|]. by intros [->|].
  - rewrite elem_of_app, list_elem_of_singleton. tauto.
Qed.

Lemma add_listener_present x l : x ∈ l → add_listener x l = l.
Proof. intros. unfold add_listener. by rewrite decide_True. Qed.

(** Attaching twice is attaching once. *)
Lemma attached_idemp l : attached (attached l) = attached l.
Proof.
  unfold attached.
  rewrite (add_listener_present ("mousedown", HdragStart)).
  2:{ rewrite !add_listener_elem. auto. }
  rewrite (add_listener_present ("mouseup", HdragEnd)).
  2:{ rewrite !add_listener_elem. auto. }
  rewrite (add_listener_present ("mousemove", HdragMove)).
  2:{ rewrite !add_listener_elem. auto. }
  done.
Qed.

Lemma attached_has l :
  ("mousedown", HdragStart) ∈ attached l ∧
  ("mouseup", HdragEnd) ∈ attached l ∧
  ("mousemove", HdragMove) ∈ attached l.
Proof. unfold attached. rewrite !add_listener_elem. auto 6. Qed.

(** ** The mutation watcher *)

Lemma for_each_app {A} (l1 l2 : list A) (body : A → JS unit) w :
  for_each (l1 ++ l2) body w = (for_each l1 body;; for_each l2 body) w.
Proof.
  revert w. induction l1 as [|a l1 IH]; intros w; simpl.
  - reflexivity.
  - unfold mbind, JS_bind in *. destruct (body a w) as [w1 [[]|]]; [|done].
    apply IH.
Qed.

Lemma for_each_nested {A B} (f : A → list B) (l : list A) (body : B → JS unit) w :
  for_each l (λ a, for_each (f a) body) w = for_each (mjoin (f <$> l)) body w.
Proof.
  revert w. induction l as [|a l IH]; intros w; simpl; [done|].
  rewrite for_each_app. unfold mbind, JS_bind.
  destruct (for_each (f a) body w) as [w1 [[]|]]; [|done]. apply IH.
Qed.

Lemma qualifies_same w w' e :
  same_but_listeners w w' → qualifies w' e = qualifies w e.
Proof. intros (Hv & Hd & _). unfold qualifies. by rewrite Hv, Hd. Qed.

Lemma attach_loop (nodes : list elem) (w : World) :
  ∃ w',
    for_each nodes (λ addedNode,
      d ← getdom; a ← getv draggableAttribute;
      if isHTMLElement d addedNode && hasAttribute d (template a) addedNode
      then addEventListeners addedNode
      else mret ()) w = (w', Some ()) ∧
    same_but_listeners w w' ∧
    ∀ e, listeners w' e =
         if bool_decide (e ∈ nodes) && qualifies w e
         then attached (listeners w e) else listeners w e.
Proof.
  revert w. induction nodes as [|a r IH]; intros w; simpl.
  - exists w. split; [done|]. split; [apply same_but_listeners_refl|]. done.
  - unfold mbind, JS_bind, getdom, getv in *. simpl in *.
    fold (qualifies w a).
    assert (∃ w1, (if qualifies w a then addEventListeners a else mret ()) w
                  = (w1, Some ()) ∧ same_but_listeners w w1 ∧
                  ∀ e, listeners w1 e =
                       if bool_decide (e = a) && qualifies w e
                       then attached (listeners w e) else listeners w e)
      as (w1 & -> & S1 & L1).
    { destruct (qualifies w a) eqn:Q.
      - destruct (addEventListeners_spec a w) as (R & S & L).
        destruct (addEventListeners a w) as [w1 o]; simpl in *. subst o.
        exists w1. split; [done|]. split; [done|]. intros e. rewrite L.
        destruct (decide (e = a)) as [->|].
        + by rewrite bool_decide_eq_true_2, Q.
        + by rewrite bool_decide_eq_false_2.
      - exists w. split; [done|]. split; [apply same_but_listeners_refl|].
        intros e. destruct (bool_decide (e = a)) eqn:E; [|done].
        apply bool_decide_eq_true in E as ->. by rewrite Q. }
    destruct (IH w1) as (w' & R & S & L). exists w'. split; [done|].
    split; [eauto using same_but_listeners_trans|].
    intros e. rewrite L, L1, (qualifies_same w w1) by done.
    destruct (qualifies w e); rewrite ?andb_false_r; [|done].
    rewrite !andb_true_r.
    destruct (decide (e = a)) as [->|Hne].
    + rewrite (bool_decide_eq_true_2 (a = a)) by done.
      rewrite (bool_decide_eq_true_2 (a ∈ a :: r)) by apply list_elem_of_here.
      destruct (bool_decide (a ∈ r)); [apply attached_idemp|done].
    + rewrite (bool_decide_eq_false_2 (e = a)) by done.
      destruct (decide (e ∈ r)).
      * rewrite !bool_decide_eq_true_2; [done|by apply list_elem_of_further|done].
      * rewrite !bool_decide_eq_false_2; [done| |done].
        rewrite elem_of_cons. tauto.
Qed.

(** C6, as the code has it.  For every batch of mutation records the
    watcher returns, changes nothing but listener lists, and leaves on each
    node [e] exactly this: when [e] is itself listed in the [addedNodes] of
    one of the records, is an [HTMLElement] and bears the draggable marker
    (as [hasAttribute] finds it), its listener list is the attached one, in
    which the mousedown, mouseup and mousemove listeners of the module are
    present; otherwise its listener list is what it was.  In particular a
    node that is not an [HTMLElement], be it a text node or an element of
    another namespace, is ignored, and a node [e] inside the subtree [s] of
    an added node [p] that is not itself listed keeps its listener list,
    marker or not. *)
Theorem mutationCallback_attaches_top_level_only
    (records : list MutationRecord) (w : World) :
  let w' := exec (mutationCallback records) w in
  let top_level := mjoin (addedNodes <$> records) in
  (mutationCallback records w).2 = Some () ∧
  same_but_listeners w w' ∧
  (∀ e, listeners w' e =
        if bool_decide (e ∈ top_level) && qualifies w e
        then attached (listeners w e) else listeners w e) ∧
  (∀ e, e ∈ top_level → qualifies w e = true →
        ("mousedown", HdragStart) ∈ listeners w' e ∧
        ("mouseup", HdragEnd) ∈ listeners w' e ∧
        ("mousemove", HdragMove) ∈ listeners w' e) ∧
  (∀ e, isHTMLElement (dom w) e = false → listeners w' e = listeners w e) ∧
  (∀ p s e, p ∈ top_level →
            find_subtree_f p (document (dom w)) = Some s →
            e ∈ ids s → e ∉ top_level →
            listeners w' e = listeners w e).
Proof.
  intros w' top_level. unfold w', exec, mutationCallback.
  rewrite for_each_nested. fold top_level.
  destruct (attach_loop top_level w) as (w1 & -> & S & L). simpl.
  split; [done|]. split; [done|]. split; [done|]. split; [|split].
  - intros e He Hq. rewrite L, Hq, bool_decide_eq_true_2 by done.
    apply attached_has.
  - intros e He. rewrite L. unfold qualifies. rewrite He.
    by rewrite andb_false_r.
  - intros p s e _ _ _ He. rewrite L.
    by rewrite bool_decide_eq_false_2.
Qed.

Lemma mutationCallback_frame records w :
  same_but_listeners w (exec (mutationCallback records) w).
Proof.
  unfold exec, mutationCallback. rewrite for_each_nested.
  by destruct (attach_loop (mjoin (addedNodes <$> records)) w)
    as (w' & -> & ? & _).
Qed.

Lemma mutationCallback_vars records w :
  vars (exec (mutationCallback records) w) = vars w.
Proof. apply mutationCallback_frame. Qed.

(** ** The document tree *)

(** Induction on a tree, with the property available for every child. *)
Lemma tree_ind (P : tree → Prop) :
  (∀ e ks, Forall P ks → P (T e ks)) → ∀ t, P t.
Proof.
  intros IH. fix go 1. intros [e ks]. apply IH.
  induction ks as [|k ks IHks]; constructor; [apply go|apply IHks].
Qed.

Lemma first_some_nil {A B} (f : A → option B) : first_some f [] = None.
Proof. reflexivity. Qed.

Lemma first_some_cons {A B} (f : A → option B) a l :
  first_some f (a :: l) =
  match f a with Some b => Some b | None => first_some f l end.
Proof. unfold first_some. simpl. by destruct (f a). Qed.

Lemma first_some_None {A B} (f : A → option B) l :
  first_some f l = None ↔ Forall (λ a, f a = None) l.
Proof.
  induction l as [|a l IH]; [by split|].
  rewrite first_some_cons, list.Forall_cons. destruct (f a); [|by rewrite IH; tauto].
  split; [done|]. by intros [? _].
Qed.

(** The first result comes from some [a], and everything before [a] gave
    none. *)
Lemma first_some_Some {A B} (f : A → option B) l b :
  first_some f l = Some b →
  ∃ l1 a l2, l = l1 ++ a :: l2 ∧ f a = Some b ∧ Forall (λ a, f a = None) l1.
Proof.
  induction l as [|a l IH]; [done|]. rewrite first_some_cons.
  destruct (f a) as [b'|] eqn:E.
  - intros [= ->]. by exists [], a, l.
  - intros (l1 & a' & l2 & -> & ? & ?)%IH.
    exists (a :: l1), a', l2. split; [done|]. split; [done|].
    by constructor.
Qed.

Lemma first_some_app_None {A B} (f : A → option B) l1 l2 :
  Forall (λ a, f a = None) l1 → first_some f (l1 ++ l2) = first_some f l2.
Proof.
  induction 1 as [|a l1 E _ IH]; [done|]. simpl.
  by rewrite first_some_cons, E.
Qed.

Lemma ids_unfold e ks : ids (T e ks) = e :: ids_f ks.
Proof. reflexivity. Qed.

Lemma elem_of_ids_f x f : x ∈ ids_f f ↔ ∃ t, t ∈ f ∧ x ∈ ids t.
Proof.
  unfold ids_f. rewrite list_elem_of_In, in_flat_map.
  split; intros (t & ? & ?); exists t; by rewrite ?list_elem_of_In in *.
Qed.

Lemma root_in_ids t : root t ∈ ids t.
Proof. destruct t. simpl. apply list_elem_of_here. Qed.

Lemma anc_unfold h e ks :
  anc h (T e ks) =
  if decide (e = h) then Some [] else (λ p, p ++ [e]) <$> anc_f h ks.
Proof. reflexivity. Qed.

(** A node has ancestors in the tree exactly when it occurs in it. *)
Lemma anc_None h t : anc h t = None ↔ h ∉ ids t.
Proof.
  induction t as [e ks IH] using tree_ind.
  rewrite anc_unfold, ids_unfold, not_elem_of_cons.
  destruct (decide (e = h)) as [->|Hne]; [by split; [|intros []]|].
  rewrite fmap_None. unfold anc_f. rewrite first_some_None.
  rewrite elem_of_ids_f, !list.Forall_forall in *.
  split.
  - intros Hall. split; [done|]. intros (t & Ht & Hin).
    by apply (IH t Ht) in Hin; [|apply Hall].
  - intros [_ Hno] t Ht. apply (IH t Ht). intros ?. apply Hno. eauto.
Qed.

Lemma anc_f_None h f : anc_f h f = None ↔ h ∉ ids_f f.
Proof.
  unfold anc_f. rewrite first_some_None, elem_of_ids_f, list.Forall_forall.
  setoid_rewrite anc_None. split.
  - intros Hall (t & Ht & Hin). by apply (Hall t Ht).
  - intros Hno t Ht Hin. apply Hno. eauto.
Qed.

(** The ancestors found in a tree are nodes of the tree, and the last of
    the inclusive ancestors is its root. *)
Lemma anc_in_ids h t p : anc h t = Some p → h ∈ ids t ∧ ∀ x, x ∈ p → x ∈ ids t.
Proof.
  revert p. induction t as [e ks IH] using tree_ind. intros p.
  rewrite anc_unfold, ids_unfold.
  destruct (decide (e = h)) as [->|Hne].
  - intros [= <-]. split; [apply list_elem_of_here|]. by intros x ?%elem_of_nil.
  - intros (q & Hq & ->)%fmap_Some.
    apply first_some_Some in Hq as (l1 & k & l2 & -> & Hk & _).
    rewrite list.Forall_forall in IH.
    assert (k ∈ l1 ++ k :: l2) as Hin
      by (rewrite elem_of_app, elem_of_cons; auto).
    destruct (IH k Hin q Hk) as [Hh Hq].
    assert (∀ x, x ∈ ids k → x ∈ ids_f (l1 ++ k :: l2)) as Hsub.
    { intros x ?. apply elem_of_ids_f. by exists k. }
    split; [apply list_elem_of_further; auto|].
    intros x [?| ->%list_elem_of_singleton]%elem_of_app.
    + apply list_elem_of_further; auto.
    + apply list_elem_of_here.
Qed.

Lemma anc_last h t p : anc h t = Some p → list.last (h :: p) = Some (root t).
Proof.
  destruct t as [e ks]. rewrite anc_unfold. simpl.
  destruct (decide (e = h)) as [->|Hne].
  - by intros [= <-].
  - intros (q & _ & ->)%fmap_Some.
    change (h :: q ++ [e]) with ((h :: q) ++ [e]). by rewrite last_snoc.
Qed.

Lemma ids_f_app f1 f2 : ids_f (f1 ++ f2) = ids_f f1 ++ ids_f f2.
Proof. unfold ids_f. apply flat_map_app. Qed.

Lemma ids_f_cons t f : ids_f (t :: f) = ids t ++ ids_f f.
Proof. reflexivity. Qed.

(** In a forest without repeated nodes, the ancestors of an ancestor of
    [h] are ancestors of [h]. *)

Lemma anc_f_closed_aux f :
  Forall anc_closed f →
  ∀ h z p, NoDup (ids_f f) → anc_f h f = Some p → z ∈ p →
           ∃ q, anc_f z f = Some q ∧ ∀ x, x ∈ q → x ∈ p.
Proof.
  intros IH h z p Hnd Hp Hz. unfold anc_f in *.
  apply first_some_Some in Hp as (l1 & k & l2 & -> & Hk & _).
  rewrite ids_f_app, ids_f_cons in Hnd.
  apply list.NoDup_app in Hnd as (_ & Hdisj & Hnd).
  apply list.NoDup_app in Hnd as (Hndk & _ & _).
  rewrite list.Forall_forall in IH.
  destruct (IH k (ltac:(rewrite elem_of_app, elem_of_cons; auto))
              h z p Hndk Hk Hz) as (q & Hq & Hsub).
  exists q. split; [|done].
  rewrite first_some_app_None, first_some_cons, Hq; [done|].
  apply list.Forall_forall. intros t Ht. apply anc_None. intros Hzt.
  apply (Hdisj z).
  - apply elem_of_ids_f. eauto.
  - apply elem_of_app. left. apply (anc_in_ids h k p Hk). done.
Qed.

Lemma anc_closed_tree t : anc_closed t.
Proof.
  induction t as [e ks IH] using tree_ind. intros h z p Hnd.
  rewrite !anc_unfold. rewrite ids_unfold in Hnd.
  apply list.NoDup_cons in Hnd as [He Hnd].
  destruct (decide (e = h)) as [->|Hne].
  { intros [= <-] []%elem_of_nil. }
  intros (p' & Hp' & ->)%fmap_Some
         [Hz| ->%list_elem_of_singleton]%elem_of_app.
  - destruct (anc_f_closed_aux ks IH h z p' Hnd Hp' Hz) as (q & Hq & Hsub).
    assert (e ≠ z) as Hez.
    { intros ->. apply He. destruct (decide (z ∈ ids_f ks)) as [|Hn]; [done|].
      apply anc_f_None in Hn. congruence. }
    rewrite decide_False by done. exists (q ++ [e]). rewrite Hq.
    split; [done|]. intros x. rewrite !elem_of_app. intros [?|?]; auto.
  - rewrite decide_True by done. exists []. split; [done|].
    by intros x ?%elem_of_nil.
Qed.

Lemma anc_f_closed f h z p :
  NoDup (ids_f f) → anc_f h f = Some p → z ∈ p →
  ∃ q, anc_f z f = Some q ∧ ∀ x, x ∈ q → x ∈ p.
Proof.
  apply anc_f_closed_aux, list.Forall_forall. intros t _. apply anc_closed_tree.
Qed.

Lemma inclusive_ancestors_trans f h z e :
  NoDup (ids_f f) →
  z ∈ inclusive_ancestors f h → e ∈ inclusive_ancestors f z →
  e ∈ inclusive_ancestors f h.
Proof.
  unfold inclusive_ancestors. intros Hnd Hz He.
  apply elem_of_cons in Hz as [->|Hz]; [done|].
  destruct (anc_f h f) as [p|] eqn:Hp; simpl in *; [|by apply elem_of_nil in Hz].
  destruct (anc_f_closed f h z p Hnd Hp Hz) as (q & Hq & Hsub).
  rewrite Hq in He. simpl in He.
  apply elem_of_cons in He as [->|He]; apply list_elem_of_further; auto.
Qed.

(** *** Pruning *)

Lemma prune_unfold e n ks : prune e (T n ks) = T n (prune_f e ks).
Proof. reflexivity. Qed.

Lemma root_prune e t : root (prune e t) = root t.
Proof. by destruct t. Qed.

Lemma elem_of_prune_f e f t' :
  t' ∈ prune_f e f ↔ ∃ t, t ∈ f ∧ t' = prune e t ∧ root t ≠ e.
Proof.
  unfold prune_f. rewrite list_elem_of_filter, list_elem_of_fmap.
  split.
  - intros (Hr & t & -> & Ht). exists t. by rewrite root_prune in Hr.
  - intros (t & Ht & -> & Hr). rewrite root_prune. eauto.
Qed.

(** The pruned node is gone. *)
Lemma prune_removes e t : root t ≠ e → e ∉ ids (prune e t).
Proof.
  induction t as [n ks IH] using tree_ind. simpl root. intros Hn.
  rewrite prune_unfold, ids_unfold, not_elem_of_cons. split; [done|].
  rewrite elem_of_ids_f. intros (t' & (t & Ht & -> & Hr)%elem_of_prune_f & Hin).
  rewrite list.Forall_forall in IH. by apply (IH t Ht Hr).
Qed.

Lemma prune_f_removes e f : e ∉ ids_f (prune_f e f).
Proof.
  rewrite elem_of_ids_f. intros (t' & (t & Ht & -> & Hr)%elem_of_prune_f & Hin).
  by apply (prune_removes e t Hr).
Qed.

(** A node none of whose inclusive ancestors is pruned stays. *)
Lemma prune_f_keeps_aux e f :
  Forall (prune_keeps_tree e) f →
  ∀ z p, anc_f z f = Some p → e ∉ z :: p → z ∈ ids_f (prune_f e f).
Proof.
  intros IH z p Hp He. unfold anc_f in Hp.
  apply first_some_Some in Hp as (l1 & k & l2 & -> & Hk & _).
  rewrite list.Forall_forall in IH.
  assert (k ∈ l1 ++ k :: l2) as Hin by (rewrite elem_of_app, elem_of_cons; auto).
  apply elem_of_ids_f. exists (prune e k). split.
  - apply elem_of_prune_f. exists k. split; [done|]. split; [done|].
    intros <-. apply He. apply anc_last in Hk. by apply last_Some_elem_of.
  - by apply (IH k Hin z p).
Qed.

Lemma prune_keeps e t : prune_keeps_tree e t.
Proof.
  induction t as [n ks IH] using tree_ind. intros z p.
  rewrite anc_unfold, prune_unfold, ids_unfold.
  destruct (decide (n = z)) as [->|Hne]; [intros; apply list_elem_of_here|].
  intros (p' & Hp' & ->)%fmap_Some He. apply list_elem_of_further.
  apply (prune_f_keeps_aux e ks IH z p' Hp').
  intros Hin. apply He.
  apply elem_of_cons in Hin as [->|Hin]; [apply list_elem_of_here|].
  apply list_elem_of_further, elem_of_app. by left.
Qed.

Lemma prune_f_keeps e f z :
  z ∈ ids_f f → e ∉ inclusive_ancestors f z → z ∈ ids_f (prune_f e f).
Proof.
  unfold inclusive_ancestors. intros Hz He.
  destruct (anc_f z f) as [p|] eqn:Hp.
  - apply (prune_f_keeps_aux e f) with p; [|done|done].
    apply list.Forall_forall. intros t _. apply prune_keeps.
  - by apply anc_f_None in Hp.
Qed.

(** *** Grafting *)

Lemma graft_unfold z s n ks :
  graft z s (T n ks) =
  if decide (n = z) then T n (ks ++ [s]) else T n (graft_f z s ks).
Proof. reflexivity. Qed.

Lemma kids_of_unfold z e ks :
  kids_of z (T e ks) =
  if decide (e = z) then Some (root <$> ks) else first_some (kids_of z) ks.
Proof. reflexivity. Qed.

Lemma first_some_fmap_ext {A B} (f g : A → option B) (k : B → B) (u : A → A) l :
  Forall (λ a, f (u a) = k <$> g a) l →
  first_some f (u <$> l) = k <$> first_some g l.
Proof.
  induction 1 as [|a l E _ IH]; [done|].
  rewrite fmap_cons, !first_some_cons, E. by destruct (g a).
Qed.

(** The grafted tree becomes the last child of [z]. *)
Lemma kids_of_graft z s t :
  kids_of z (graft z s t) = (λ c, c ++ [root s]) <$> kids_of z t.
Proof.
  induction t as [n ks IH] using tree_ind.
  rewrite graft_unfold, kids_of_unfold.
  destruct (decide (n = z)) as [->|Hne].
  - rewrite kids_of_unfold, decide_True by done. simpl.
    by rewrite fmap_app.
  - rewrite kids_of_unfold, decide_False by done.
    by apply first_some_fmap_ext.
Qed.

Lemma kids_of_None z t : kids_of z t = None ↔ z ∉ ids t.
Proof.
  induction t as [e ks IH] using tree_ind.
  rewrite kids_of_unfold, ids_unfold, not_elem_of_cons.
  destruct (decide (e = z)) as [->|Hne]; [by split; [|intros []]|].
  rewrite first_some_None.
  rewrite elem_of_ids_f, !list.Forall_forall in *.
  split.
  - intros Hall. split; [done|]. intros (t & Ht & Hin).
    by apply (IH t Ht) in Hin; [|apply Hall].
  - intros [_ Hno] t Ht. apply (IH t Ht). intros ?. apply Hno. eauto.
Qed.

Lemma childNodes_graft z s f :
  z ∈ ids_f f →
  childNodes (graft_f z s f) z = childNodes f z ++ [root s].
Proof.
  intros Hz. unfold childNodes, graft_f.
  rewrite (first_some_fmap_ext _ (kids_of z) (λ c, c ++ [root s])).
  2:{ apply list.Forall_forall. intros t _. apply kids_of_graft. }
  destruct (first_some (kids_of z) f) as [c|] eqn:E; [done|].
  exfalso. apply first_some_None in E. rewrite list.Forall_forall in E.
  apply elem_of_ids_f in Hz as (t & Ht & Hin).
  by apply (kids_of_None z t) in Hin; [|apply E].
Qed.

Lemma graft_absent z s t : z ∉ ids t → graft z s t = t.
Proof.
  induction t as [n ks IH] using tree_ind.
  rewrite ids_unfold, not_elem_of_cons, graft_unfold. intros [Hn Hks].
  rewrite decide_False by done. f_equal. unfold graft_f.
  induction IH as [|k ks Hk _ IHks]; [done|].
  rewrite ids_f_cons, elem_of_app in Hks. rewrite fmap_cons.
  f_equal; [apply Hk|apply IHks]; tauto.
Qed.

(** After the graft, the parent of the grafted root is [z]. *)
Lemma anc_graft_f_aux z s f :
  Forall (graft_parent z s) f →
  z ∈ ids_f f → root s ∉ ids_f f →
  ∃ q, anc_f (root s) (graft_f z s f) = Some (z :: q).
Proof.
  unfold anc_f, graft_f.
  induction 1 as [|k ks Hk _ IH]; intros Hz Hs.
  { by apply elem_of_nil in Hz. }
  rewrite ids_f_cons, elem_of_app in Hz, Hs.
  rewrite fmap_cons, first_some_cons.
  destruct (decide (z ∈ ids k)) as [Hzk|Hzk].
  - destruct (Hk Hzk) as (q & ->); [tauto|]. by exists q.
  - rewrite graft_absent by done.
    assert (anc (root s) k = None) as -> by (apply anc_None; tauto).
    apply IH; tauto.
Qed.

Lemma anc_graft z s t : graft_parent z s t.
Proof.
  induction t as [n ks IH] using tree_ind. intros Hz Hs.
  rewrite ids_unfold in Hz, Hs. apply not_elem_of_cons in Hs as [Hns Hs].
  rewrite graft_unfold.
  destruct (decide (n = z)) as [->|Hne].
  - rewrite anc_unfold, decide_False by done. unfold anc_f.
    rewrite first_some_app_None.
    2:{ apply list.Forall_forall. intros t Ht. apply anc_None.
        intros ?. apply Hs, elem_of_ids_f. eauto. }
    rewrite first_some_cons. destruct s as [e ss]. simpl root.
    rewrite anc_unfold, decide_True by done. by exists [].
  - apply elem_of_cons in Hz as [->|Hz]; [done|].
    rewrite anc_unfold, decide_False by done.
    destruct (anc_graft_f_aux z s ks IH Hz Hs) as (q & ->).
    by exists (q ++ [n]).
Qed.

Lemma find_subtree_root e t s : find_subtree e t = Some s → root s = e.
Proof.
  revert s. induction t as [n ks IH] using tree_ind. intros s. simpl.
  destruct (decide (n = e)) as [->|Hne]; [by intros [= <-]|].
  intros (l1 & k & l2 & -> & Hk & _)%first_some_Some.
  rewrite list.Forall_forall in IH. apply (IH k); [|done].
  rewrite elem_of_app, elem_of_cons. auto.
Qed.

Lemma moved_root e f : root (default (T e []) (find_subtree_f e f)) = e.
Proof.
  unfold find_subtree_f.
  destruct (first_some (find_subtree e) f) as [s|] eqn:E; simpl; [|done].
  apply first_some_Some in E as (l1 & k & l2 & -> & Hk & _).
  by apply find_subtree_root in Hk.
Qed.

(** [z.appendChild(e)], when it does not throw: [e] is the last child of
    [z] and [z] is the parent of [e]. *)
Lemma moved_spec f z e :
  z ∈ ids_f f → e ∉ inclusive_ancestors f z →
  list.last (childNodes (moved z e f) z) = Some e ∧
  parentNode (moved z e f) e = Some z.
Proof.
  intros Hz He. unfold moved.
  pose proof (moved_root e f) as Hroot.
  set (s := default (T e []) (find_subtree_f e f)) in *.
  pose proof (prune_f_keeps e f z Hz He) as Hkeep.
  pose proof (prune_f_removes e f) as Hgone.
  split.
  - rewrite childNodes_graft by done. by rewrite last_snoc, Hroot.
  - unfold parentNode.
    destruct (anc_graft_f_aux z s (prune_f e f)) as (q & Hq).
    + apply list.Forall_forall. intros t _. apply anc_graft.
    + done.
    + by rewrite Hroot.
    + rewrite Hroot in Hq. by rewrite Hq.
Qed.

(** ** Inline style *)

Lemma style_set_lookup e p v d e' p' :
  css_accepts p v = true →
  style (style_set e p v d) e' !! p' =
  if decide (e' = e ∧ p' = p) then Some v else style d e' !! p'.
Proof.
  intros Hok. unfold style_set. rewrite Hok. simpl.
  destruct (decide (e' = e)) as [->|He].
  - rewrite fn_lookup_insert. destruct (decide (p' = p)) as [->|Hp].
    + by rewrite lookup_insert_eq, decide_True.
    + rewrite lookup_insert_ne by done. rewrite decide_False; [done|tauto].
  - rewrite fn_lookup_insert_ne by done. rewrite decide_False; [done|tauto].
Qed.

(** An assignment the browser ignores leaves the page as it was. *)
Lemma style_set_ignored e p v d :
  css_accepts p v = false → style_set e p v d = d.
Proof. intros Hno. unfold style_set. by rewrite Hno. Qed.

Lemma style_set_document e p v d :
  document (style_set e p v d) = document d.
Proof. unfold style_set. by destruct (css_accepts p v). Qed.

Lemma style_clear_lookup e d e' :
  style (style_clear e d) e' = if decide (e' = e) then ∅ else style d e'.
Proof.
  unfold style_clear. simpl. destruct (decide (e' = e)) as [->|He].
  - by rewrite fn_lookup_insert.
  - by rewrite fn_lookup_insert_ne.
Qed.

Lemma placed_at_top e r ev d :
  style (placed_at e r ev d) e !! "top" = Some (Px (clientY ev - height r / 2)).
Proof.
  unfold placed_at. rewrite !style_set_lookup by done.
  rewrite decide_False by (by intros [_ ?]). by rewrite decide_True.
Qed.

Lemma placed_at_left e r ev d :
  style (placed_at e r ev d) e !! "left" = Some (Px (clientX ev - width r / 2)).
Proof.
  unfold placed_at. rewrite style_set_lookup by done. by rewrite decide_True.
Qed.

Lemma placed_at_other e r ev d e' p :
  e' ≠ e ∨ (p ≠ "top" ∧ p ≠ "left") →
  style (placed_at e r ev d) e' !! p = style d e' !! p.
Proof.
  intros H. unfold placed_at. rewrite !style_set_lookup by done.
  rewrite !decide_False; [done|tauto..].
Qed.

Lemma dom_lifted e r ev w :
  dom (lifted e r ev w) =
  style_set e "position" (Kw "absolute")
    (placed_at e r ev
       (style_set e "height" (Px (height r))
          (style_set e "width" (Px (width r)) (dom w)))).
Proof. reflexivity. Qed.

Lemma lifted_top e r ev w :
  style (dom (lifted e r ev w)) e !! "top" = Some (Px (clientY ev - height r / 2)).
Proof.
  rewrite dom_lifted, style_set_lookup by done.
  rewrite decide_False by (by intros [_ ?]). apply placed_at_top.
Qed.

Lemma lifted_left e r ev w :
  style (dom (lifted e r ev w)) e !! "left" = Some (Px (clientX ev - width r / 2)).
Proof.
  rewrite dom_lifted, style_set_lookup by done.
  rewrite decide_False by (by intros [_ ?]). apply placed_at_left.
Qed.

Lemma lifted_other e r ev w e' p :
  e' ≠ e ∨ p ∉ placement_properties →
  style (dom (lifted e r ev w)) e' !! p = style (dom w) e' !! p.
Proof.
  intros H. rewrite dom_lifted.
  assert (e' ≠ e ∨ (p ≠ "width" ∧ p ≠ "height" ∧ p ≠ "top" ∧ p ≠ "left" ∧
                    p ≠ "position")) as H'.
  { destruct H as [?|H]; [by left|right]. unfold placement_properties in H.
    rewrite !not_elem_of_cons in H. tauto. }
  rewrite style_set_lookup by done. rewrite decide_False by tauto.
  rewrite placed_at_other by tauto.
  rewrite !style_set_lookup by done. rewrite !decide_False; [done|tauto..].
Qed.

(** ** Attaching to a list of elements *)

Lemma attach_all_listeners l w :
  ∃ w', for_each l addEventListeners w = (w', Some ()) ∧
        same_but_listeners w w' ∧
        ∀ e, listeners w' e =
             if bool_decide (e ∈ l) then attached (listeners w e)
             else listeners w e.
Proof.
  revert w. induction l as [|a l IH]; intros w; simpl.
  - exists w. split; [done|]. split; [apply same_but_listeners_refl|done].
  - unfold mbind, JS_bind.
    destruct (addEventListeners_spec a w) as (R & S & L).
    destruct (addEventListeners a w) as [w1 o]; simpl in *. subst o.
    destruct (IH w1) as (w' & -> & S' & L'). exists w'.
    split; [done|]. split; [eauto using same_but_listeners_trans|].
    intros e. rewrite L', (L e).
    destruct (decide (e = a)) as [->|Hne].
    + rewrite (bool_decide_eq_true_2 (a ∈ a :: l)) by apply list_elem_of_here.
      destruct (bool_decide (a ∈ l)); [apply attached_idemp|done].
    + destruct (decide (e ∈ l)).
      * rewrite !bool_decide_eq_true_2; [done|by apply list_elem_of_further|done].
      * rewrite !bool_decide_eq_false_2; [done| |done].
        rewrite elem_of_cons. tauto.
Qed.

Lemma merged_marker o v :
  template (draggableAttribute (merged o v)) = marker_after o v.
Proof.
  unfold merged, marker_after.
  destruct (DragOptions.dragMoveCallback o),
    (DragOptions.dragStartCallback o),
    (DragOptions.dragEndCallback o),
    (truthy (DragOptions.dropzoneAttribute o)),
    (truthy (DragOptions.draggableAttribute o)); done.
Qed.

(** ** Pointer handlers *)

Section Lifecycle.

Variable getBoundingClientRect : Dom → elem → DOMRect.
Variable elementFromPoint : Dom → Q → Q → option elem.
Variable other_selector : string → option (Dom → elem → bool).
Variable consumer : fn → list elem → Dom → Dom * bool.

Abbreviation dragStart := (dragStart getBoundingClientRect consumer).
Abbreviation dragEnd := (dragEnd elementFromPoint other_selector consumer).
Abbreviation dragMove := (dragMove consumer).
Abbreviation call := (call consumer).
Abbreviation configureDragAndDrop := (configureDragAndDrop other_selector).
Abbreviation discover_and_watch := (discover_and_watch other_selector).
Abbreviation configure_all := (configure_all other_selector).
Abbreviation querySelectorAll := (querySelectorAll other_selector).
Abbreviation closest := (closest other_selector).
Abbreviation hit := (hit elementFromPoint).
Abbreviation dropzone_found := (dropzone_found elementFromPoint other_selector).

Lemma dragMove_inactive ev w :
  isMouseDown (vars w) = false ∨ dragElement (vars w) = None ∨
  dragElementRect (vars w) = None →
  dragMove ev w = (w, Some ()).
Proof.
  intros Hoff. unfold dragMove. js.
  destruct (dragElement (vars w)), (dragElementRect (vars w)),
    (isMouseDown (vars w)); try done; exfalso; intuition congruence.
Qed.

Lemma dragMove_active ev w el r :
  dragElement (vars w) = Some el → dragElementRect (vars w) = Some r →
  isMouseDown (vars w) = true →
  dragMove ev w =
  let w1 := with_dom (placed_at el r ev (dom w))
              (with_vars (set_isDragging true (vars w)) w) in
  match dragMoveCallback (vars w) with
  | Some f => call f [el] w1
  | None => (w1, Some ())
  end.
Proof.
  intros He Hr Hd. unfold dragMove, moveElementToCursor. js.
  repeat (rewrite ?He, ?Hr, ?Hd; simpl).
  destruct (dragMoveCallback (vars w)); simpl; [|done].
  by rewrite He.
Qed.

Lemma dragStart_run ev w :
  let el := currentTarget ev in
  let r := getBoundingClientRect (dom w) el in
  dragStart ev w =
  match dragStartCallback (vars w) with
  | None => (lifted el r ev (pressed el r w), Some ())
  | Some f =>
      let res := call f [el] (pressed el r w) in
      match res.2 with
      | Some _ => (lifted el r ev res.1, Some ())
      | None => res
      end
  end.
Proof.
  cbv zeta. unfold dragStart, moveElementToCursor. js.
  destruct (dragStartCallback (vars w)) as [f|]; simpl; [|done].
  destruct (consumer f [currentTarget ev] (dom w)) as [d' [|]]; reflexivity.
Qed.

Lemma dragEnd_idle ev w :
  dragElement (vars w) = None →
  dragEnd ev w =
  (with_log (log w ++ [PreventDefault])
     (with_vars (set_isMouseDown false (vars w)) w), Some ()).
Proof. intros He. unfold dragEnd. js. by rewrite He. Qed.

Lemma dragEnd_active ev w el :
  dragElement (vars w) = Some el →
  dragEnd ev w =
  let w1 := released el w in
  match dropzone_found el ev w with
  | None => (w1, None)
  | Some None => (cleaned el w1, Some ())
  | Some (Some z) =>
      if decide (el ∈ inclusive_ancestors (document (dom w)) z)
      then (w1, None)
      else
        let w2 := with_dom (dropped_into z el w) w1 in
        match dragEndCallback (vars w) with
        | None => (cleaned el w2, Some ())
        | Some f =>
            let res := call f [el; z] w2 in
            match res.2 with
            | Some _ => (cleaned el res.1, Some ())
            | None => res
            end
        end
  end.
Proof.
  intros He.
  unfold dragEnd, dropzone_found, hit, dropped_into, appendChild. js.
  repeat (rewrite ?He; simpl).
  destruct (document_elementFromPoint _ _ _ _) as [h|]; simpl.
  2:{ by repeat (rewrite ?He; simpl). }
  destruct (closest _ _ h) as [[z|]|]; simpl.
  2:{ by repeat (rewrite ?He; simpl). }
  2:{ done. }
  repeat (rewrite ?He; simpl).
  destruct (decide (el ∈ inclusive_ancestors (document (dom w)) z)); simpl;
    [done|].
  destruct (dragEndCallback (vars w)) as [f|]; simpl.
  2:{ by repeat (rewrite ?He; simpl). }
  repeat (rewrite ?He; simpl).
  destruct (consumer f [el; z] _) as [d' [|]]; simpl; [|done].
  by repeat (rewrite ?He; simpl).
Qed.



(** *** What the handlers leave alone *)

Lemma call_vars f args w : vars (call f args w).1 = vars w.
Proof. reflexivity. Qed.

Lemma call_listeners f args w : listeners (call f args w).1 = listeners w.
Proof. reflexivity. Qed.

(** The variables after [dragStart], whether its callback returned or not. *)
Lemma dragStart_vars ev w :
  let v := vars (exec (dragStart ev) w) in
  isDragging v = false ∧ isMouseDown v = true ∧
  dragElement v = Some (currentTarget ev) ∧
  dragElementRect v =
    Some (getBoundingClientRect (dom w) (currentTarget ev)) ∧
  observer v = observer (vars w) ∧
  dragMoveCallback v = dragMoveCallback (vars w) ∧
  dragStartCallback v = dragStartCallback (vars w) ∧
  dragEndCallback v = dragEndCallback (vars w) ∧
  dropzoneAttribute v = dropzoneAttribute (vars w) ∧
  draggableAttribute v = draggableAttribute (vars w).
Proof.
  cbv zeta. unfold exec. rewrite dragStart_run. cbv zeta.
  destruct (dragStartCallback (vars w)) as [f|] eqn:E; simpl.
  - destruct (consumer f _ _) as [d' [|]]; simpl; by rewrite ?E.
  - by rewrite ?E.
Qed.

Lemma dragStart_listeners ev w :
  listeners (exec (dragStart ev) w) = listeners w.
Proof.
  unfold exec. rewrite dragStart_run. cbv zeta.
  destruct (dragStartCallback (vars w)) as [f|]; simpl; [|done].
  by destruct (consumer f _ _) as [d' [|]].
Qed.

(** [dragMove] changes no variable except, possibly, [isDragging]. *)
Lemma dragMove_vars ev w :
  vars (exec (dragMove ev) w) = vars w ∨
  vars (exec (dragMove ev) w) = set_isDragging true (vars w).
Proof.
  unfold exec.
  destruct (dragElement (vars w)) as [el|] eqn:He;
    [destruct (dragElementRect (vars w)) as [r|] eqn:Hr;
     [destruct (isMouseDown (vars w)) eqn:Hd|]|].
  - right. rewrite (dragMove_active ev w el r) by done. cbv zeta.
    by destruct (dragMoveCallback (vars w)).
  - left. rewrite dragMove_inactive; auto.
  - left. rewrite dragMove_inactive; auto.
  - left. rewrite dragMove_inactive; auto.
Qed.

Lemma dragMove_session ev w :
  let v := vars (exec (dragMove ev) w) in
  dragElement v = dragElement (vars w) ∧
  dragElementRect v = dragElementRect (vars w) ∧
  isMouseDown v = isMouseDown (vars w) ∧
  dragMoveCallback v = dragMoveCallback (vars w).
Proof. cbv zeta. by destruct (dragMove_vars ev w) as [-> | ->]. Qed.

Lemma dragMoves_session evs w :
  let v := vars (foldl (λ w e, exec (dragMove e) w) w evs) in
  dragElement v = dragElement (vars w) ∧
  dragElementRect v = dragElementRect (vars w) ∧
  isMouseDown v = isMouseDown (vars w) ∧
  dragMoveCallback v = dragMoveCallback (vars w).
Proof.
  cbv zeta. revert w. induction evs as [|e evs IH]; intros w; simpl; [done|].
  destruct (IH (exec (dragMove e) w)) as (-> & -> & -> & ->).
  apply dragMove_session.
Qed.

(** The variables after [dragEnd], whatever happened in between. *)
Lemma dragEnd_isDragging ev w :
  isDragging (vars (exec (dragEnd ev) w)) = isDragging (vars w).
Proof.
  unfold exec. destruct (dragElement (vars w)) as [el|] eqn:He.
  - rewrite (dragEnd_active ev w el He). cbv zeta.
    destruct (dropzone_found _ _ _) as [[z|]|]; [|done..].
    destruct (decide _); [done|].
    destruct (dragEndCallback (vars w)) as [f|]; [|done].
    simpl. by destruct (consumer f _ _) as [d' [|]].
  - by rewrite dragEnd_idle.
Qed.

(** *** Configuration *)

Lemma with_vars_id w : with_vars (vars w) w = w.
Proof. by destruct w. Qed.

Lemma vars_eta v :
  {| observer := observer v; dragElement := dragElement v;
     dragElementRect := dragElementRect v;
     dragMoveCallback := dragMoveCallback v;
     dragStartCallback := dragStartCallback v;
     dragEndCallback := dragEndCallback v;
     dropzoneAttribute := dropzoneAttribute v;
     draggableAttribute := draggableAttribute v;
     startingMousePosition := startingMousePosition v;
     isMouseDown := isMouseDown v; isDragging := isDragging v |} = v.
Proof. by destruct v. Qed.

Lemma configure_split o w :
  configureDragAndDrop o w =
  discover_and_watch (with_vars (merged o (vars w)) w).
Proof.
  unfold configureDragAndDrop, merged. fold discover_and_watch.
  unfold mbind, JS_bind, setv, mret, JS_ret.
  destruct (DragOptions.dragMoveCallback o),
    (DragOptions.dragStartCallback o),
    (DragOptions.dragEndCallback o),
    (truthy (DragOptions.dropzoneAttribute o)),
    (truthy (DragOptions.draggableAttribute o)); simpl;
    rewrite ?with_vars_id; reflexivity.
Qed.

(** Everything [configureDragAndDrop] does, in one statement: the options
    are merged; if the draggable selector is no selector the call throws
    there; otherwise it warns when nothing matches, attaches the listeners,
    constructs the watcher and stores it, and throws at the end when the
    document has no body to observe. *)
Lemma configure_full o w :
  let marker := marker_after o (vars w) in
  match querySelectorAll (dom w) marker with
  | None =>
      configureDragAndDrop o w = (with_vars (merged o (vars w)) w, None)
  | Some els =>
      ∃ w', configureDragAndDrop o w =
              (w', match body (dom w) with Some _ => Some () | None => None end) ∧
            vars w' = set_observer (Some (constructed w)) (merged o (vars w)) ∧
            dom w' = dom w ∧
            log w' = log w ++
                     (if decide (length els = 0)
                      then [Warn ("No elements with '" +:+ marker +:+
                                  "' in the DOM")]
                      else []) ∧
            (∀ e, listeners w' e =
                  if bool_decide (e ∈ els) then attached (listeners w e)
                  else listeners w e) ∧
            constructed w' = S (constructed w) ∧
            registered w' =
              match body (dom w) with
              | Some b => registered (observe (constructed w) b true true w).1
              | None => registered w
              end
  end.
Proof.
  cbv zeta. rewrite configure_split. unfold discover_and_watch. js.
  rewrite merged_marker.
  destruct (querySelectorAll (dom w) (marker_after o (vars w))) as [els|];
    simpl; [|done].
  destruct (decide (length els = 0)); simpl.
  - match goal with |- context [for_each els addEventListeners ?w0] =>
      destruct (attach_all_listeners els w0)
        as (w1 & -> & (Hv & Hd & Hl & Hr & Hc) & HL) end.
    unfold newMutationObserver, observe. simpl in *.
    rewrite ?merged_marker in Hl. rewrite Hd.
    destruct (body (dom w)) as [b|]; simpl.
    + rewrite Hr, Hc.
      destruct (existsb _ _); simpl; eexists; (split; [reflexivity|]); simpl;
        rewrite ?Hv, ?Hd, ?Hc, ?Hl; repeat split; try done; apply HL.
    + eexists; (split; [reflexivity|]); simpl;
        rewrite ?Hv, ?Hd, ?Hc, ?Hl, ?Hr; repeat split; try done; apply HL.
  - rewrite app_nil_r.
    match goal with |- context [for_each els addEventListeners ?w0] =>
      destruct (attach_all_listeners els w0)
        as (w1 & -> & (Hv & Hd & Hl & Hr & Hc) & HL) end.
    unfold newMutationObserver, observe. simpl in *. rewrite Hd.
    destruct (body (dom w)) as [b|]; simpl.
    + rewrite Hr, Hc.
      destruct (existsb _ _); simpl; eexists; (split; [reflexivity|]); simpl;
        rewrite ?Hv, ?Hd, ?Hc, ?Hl; repeat split; try done; apply HL.
    + eexists; (split; [reflexivity|]); simpl;
        rewrite ?Hv, ?Hd, ?Hc, ?Hl, ?Hr; repeat split; try done; apply HL.
Qed.

(** The variables after [configureDragAndDrop]: the merged ones, with the
    new watcher in [observer] unless the call threw before constructing
    it. *)
Lemma configure_vars o w :
  vars (exec (configureDragAndDrop o) w) = merged o (vars w) ∨
  vars (exec (configureDragAndDrop o) w) =
    set_observer (Some (constructed w)) (merged o (vars w)).
Proof.
  unfold exec. pose proof (configure_full o w) as H. cbv zeta in H.
  destruct (querySelectorAll _ _) as [els|].
  - destruct H as (w' & -> & Hv & _). by right.
  - rewrite H. by left.
Qed.

Lemma merged_fields o v :
  draggableAttribute (merged o v) =
    (if truthy (DragOptions.draggableAttribute o)
     then DragOptions.draggableAttribute o else draggableAttribute v) ∧
  dropzoneAttribute (merged o v) =
    (if truthy (DragOptions.dropzoneAttribute o)
     then DragOptions.dropzoneAttribute o else dropzoneAttribute v) ∧
  dragMoveCallback (merged o v) =
    match DragOptions.dragMoveCallback o with
    | Some f => Some f
    | None => dragMoveCallback v
    end ∧
  dragStartCallback (merged o v) =
    match DragOptions.dragStartCallback o with
    | Some f => Some f
    | None => dragStartCallback v
    end ∧
  dragEndCallback (merged o v) =
    match DragOptions.dragEndCallback o with
    | Some f => Some f
    | None => dragEndCallback v
    end ∧
  dragElement (merged o v) = dragElement v ∧
  dragElementRect (merged o v) = dragElementRect v ∧
  startingMousePosition (merged o v) = startingMousePosition v ∧
  isMouseDown (merged o v) = isMouseDown v ∧
  isDragging (merged o v) = isDragging v ∧
  observer (merged o v) = observer v.
Proof.
  unfold merged.
  destruct (DragOptions.dragMoveCallback o),
    (DragOptions.dragStartCallback o),
    (DragOptions.dragEndCallback o),
    (truthy (DragOptions.dropzoneAttribute o)),
    (truthy (DragOptions.draggableAttribute o)); done.
Qed.

(** The page, the registry and the counter after [configureDragAndDrop]. *)
Lemma configure_dom o w : dom (exec (configureDragAndDrop o) w) = dom w.
Proof.
  unfold exec. pose proof (configure_full o w) as H. cbv zeta in H.
  destruct (querySelectorAll _ _) as [els|].
  - by destruct H as (w' & -> & _ & Hd & _).
  - by rewrite H.
Qed.

Lemma configure_returns o w :
  returns (configureDragAndDrop o) w ↔
  is_Some (querySelectorAll (dom w) (marker_after o (vars w))) ∧
  is_Some (body (dom w)).
Proof.
  unfold returns. pose proof (configure_full o w) as H. cbv zeta in H.
  destruct (querySelectorAll _ _) as [els|].
  - destruct H as (w' & -> & _). simpl.
    destruct (body (dom w)) as [b|]; split.
    + intros _. split; eauto.
    + intros _. eauto.
    + by intros [? ?].
    + by intros [_ [? ?]].
  - rewrite H. simpl. split; [by intros [? ?]|]. by intros [[? ?] _].
Qed.

Lemma configure_run o w :
  returns (configureDragAndDrop o) w →
  ∃ b, body (dom w) = Some b ∧
       registered (exec (configureDragAndDrop o) w) =
         registered (observe (constructed w) b true true w).1 ∧
       constructed (exec (configureDragAndDrop o) w) = S (constructed w) ∧
       vars (exec (configureDragAndDrop o) w) =
         set_observer (Some (constructed w)) (merged o (vars w)).
Proof.
  intros Hret. pose proof Hret as [[els Hels] [b Hb]]%configure_returns.
  unfold exec. pose proof (configure_full o w) as H. cbv zeta in H.
  rewrite Hels in H. destruct H as (w' & -> & Hv & _ & _ & _ & Hc & Hr).
  exists b. rewrite Hb in Hr. by simpl.
Qed.

Lemma observe_fresh o tgt cl st w :
  Forall (λ r, reg_observer r < o) (registered w) →
  registered (observe o tgt cl st w).1 =
  registered w ++ [{| reg_observer := o; reg_target := tgt;
                      reg_childList := cl; reg_subtree := st |}].
Proof.
  intros Hk. unfold observe.
  destruct (existsb _ (registered w)) eqn:E; [|done].
  apply existsb_exists in E as (r & Hr & Hsame).
  apply bool_decide_eq_true in Hsame as [Ho _].
  rewrite list.Forall_forall in Hk. apply list_elem_of_In, Hk in Hr. lia.
Qed.

(** C4.  After [configureDragAndDrop(options)] each of the five
    configuration variables holds the supplied value when that value is
    truthy (a non-empty string, a function) and exactly its previous value
    otherwise. *)
Theorem configure_overwrites_only_supplied_fields (o : DragOptions.t) (w : World) :
  let v := vars w in
  let v' := vars (exec (configureDragAndDrop o) w) in
  draggableAttribute v' =
    (if truthy (DragOptions.draggableAttribute o)
     then DragOptions.draggableAttribute o else draggableAttribute v) ∧
  dropzoneAttribute v' =
    (if truthy (DragOptions.dropzoneAttribute o)
     then DragOptions.dropzoneAttribute o else dropzoneAttribute v) ∧
  dragMoveCallback v' =
    match DragOptions.dragMoveCallback o with
    | Some f => Some f
    | None => dragMoveCallback v
    end ∧
  dragStartCallback v' =
    match DragOptions.dragStartCallback o with
    | Some f => Some f
    | None => dragStartCallback v
    end ∧
  dragEndCallback v' =
    match DragOptions.dragEndCallback o with
    | Some f => Some f
    | None => dragEndCallback v
    end.
Proof.
  cbv zeta.
  destruct (merged_fields o (vars w)) as (H1 & H2 & H3 & H4 & H5 & _).
  by destruct (configure_vars o w) as [-> | ->].
Qed.

Lemma configure_all_cons o os w :
  configure_all (o :: os) w =
  match (configureDragAndDrop o w).2 with
  | Some _ => configure_all os (exec (configureDragAndDrop o) w)
  | None => configureDragAndDrop o w
  end.
Proof.
  unfold configure_all, exec. simpl. unfold mbind, JS_bind.
  by destruct (configureDragAndDrop o w) as [w1 [[]|]].
Qed.

(** The registered observers are touched by [configureDragAndDrop] only. *)
Lemma dragStart_registry ev w :
  registered (exec (dragStart ev) w) = registered w ∧
  constructed (exec (dragStart ev) w) = constructed w.
Proof.
  unfold exec. rewrite dragStart_run. cbv zeta.
  destruct (dragStartCallback (vars w)) as [f|]; simpl; [|done].
  by destruct (consumer f _ _) as [d' [|]].
Qed.

Lemma dragMove_registry ev w :
  registered (exec (dragMove ev) w) = registered w ∧
  constructed (exec (dragMove ev) w) = constructed w.
Proof.
  unfold exec.
  destruct (dragElement (vars w)) as [el|] eqn:He;
    [destruct (dragElementRect (vars w)) as [r|] eqn:Hr;
     [destruct (isMouseDown (vars w)) eqn:Hd|]|].
  - rewrite (dragMove_active ev w el r) by done. cbv zeta.
    by destruct (dragMoveCallback (vars w)).
  - rewrite dragMove_inactive; auto.
  - rewrite dragMove_inactive; auto.
  - rewrite dragMove_inactive; auto.
Qed.

Lemma dragEnd_registry ev w :
  registered (exec (dragEnd ev) w) = registered w ∧
  constructed (exec (dragEnd ev) w) = constructed w.
Proof.
  unfold exec. destruct (dragElement (vars w)) as [el|] eqn:He.
  - rewrite (dragEnd_active ev w el He). cbv zeta.
    destruct (dropzone_found _ _ _) as [[z|]|]; [|done..].
    destruct (decide _); [done|].
    destruct (dragEndCallback (vars w)) as [f|]; [|done].
    simpl. by destruct (consumer f _ _) as [d' [|]].
  - by rewrite dragEnd_idle.
Qed.

Lemma configure_observers_known o w :
  observers_known w → observers_known (exec (configureDragAndDrop o) w).
Proof.
  intros Hk. unfold exec. pose proof (configure_full o w) as H.
  cbv zeta in H. destruct (querySelectorAll _ _) as [els|].
  - destruct H as (w1 & -> & _ & _ & _ & _ & Hc & Hr). simpl fst.
    unfold observers_known. rewrite Hr, Hc.
    destruct (body (dom w)) as [b|].
    + rewrite observe_fresh by done. rewrite Forall_app. split.
      * eapply list.Forall_impl; [exact Hk|]. simpl. intros; lia.
      * repeat constructor.
    + eapply list.Forall_impl; [exact Hk|]. simpl. intros; lia.
  - by rewrite H.
Qed.

Lemma reachable_observers_known w :
  reachable getBoundingClientRect elementFromPoint other_selector consumer w →
  observers_known w.
Proof.
  induction 1 as [d|w w' _ IH Hstep]; [constructor|].
  unfold observers_known in *.
  destruct Hstep as [o w|records w|ev w|ev w|ev w|d w].
  - by apply configure_observers_known.
  - destruct (mutationCallback_frame records w) as (_ & _ & _ & -> & ->).
    done.
  - by destruct (dragStart_registry ev w) as [-> ->].
  - by destruct (dragEnd_registry ev w) as [-> ->].
  - by destruct (dragMove_registry ev w) as [-> ->].
  - done.
Qed.


(** C9.  A pointer-move handled while the pointer is not pressed, or while
    there is no drag subject or no captured rectangle, returns and leaves
    the world exactly as it was: no variable is assigned, no style is
    written, nothing is logged, so the move callback is not called. *)
Theorem dragMove_without_session_is_a_no_op (ev : MouseEvent) (w : World) :
  isMouseDown (vars w) = false ∨ dragElement (vars w) = None ∨
  dragElementRect (vars w) = None →
  dragMove ev w = (w, Some ()).
Proof. apply dragMove_inactive. Qed.

(** C1.  Let a pointer-down [ev0] be handled in world [w0], followed by any
    sequence [evs] of pointer-moves, and let [r] be the rectangle measured
    on the page of [w0].  When [dragStart] returns, the subject's inline
    [top] and [left] are [clientY - r.height/2] and [clientX - r.width/2].
    After the moves [evs] the subject, the rectangle [r] and the pressed
    flag are still in place, and a further move [ev] writes [top] and [left]
    by the same formula, with the same [r], before the move callback (if
    any) runs on the page so placed. *)
Theorem element_kept_centred_under_pointer
    (ev0 : MouseEvent) (w0 : World) (evs : list MouseEvent) (ev : MouseEvent) :
  let el := currentTarget ev0 in
  let r := getBoundingClientRect (dom w0) el in
  let w1 := exec (dragStart ev0) w0 in
  let wk := foldl (λ w e, exec (dragMove e) w) w1 evs in
  (returns (dragStart ev0) w0 →
   style (dom w1) el !! "top" = Some (Px (clientY ev0 - height r / 2)) ∧
   style (dom w1) el !! "left" = Some (Px (clientX ev0 - width r / 2))) ∧
  dragElement (vars wk) = Some el ∧
  dragElementRect (vars wk) = Some r ∧
  isMouseDown (vars wk) = true ∧
  ∃ placed : Dom,
    style placed el !! "top" = Some (Px (clientY ev - height r / 2)) ∧
    style placed el !! "left" = Some (Px (clientX ev - width r / 2)) ∧
    dragMove ev wk =
    let w' := with_dom placed (with_vars (set_isDragging true (vars wk)) wk) in
    match dragMoveCallback (vars wk) with
    | Some f => call f [el] w'
    | None => (w', Some ())
    end.
Proof.
  intros el r w1 wk.
  destruct (dragStart_vars ev0 w0) as (_ & Hd & He & Hr & _).
  destruct (dragMoves_session evs w1) as (Hke & Hkr & Hkd & _).
  fold wk in Hke, Hkr, Hkd. fold w1 in Hd, He, Hr.
  rewrite He in Hke. rewrite Hr in Hkr. rewrite Hd in Hkd.
  split; [|split; [done|split; [done|split; [done|]]]].
  - unfold returns, w1, exec. rewrite dragStart_run. cbv zeta.
    fold el. fold r.
    destruct (dragStartCallback (vars w0)) as [f|].
    + destruct (call f [el] (pressed el r w0)) as [w2 [[]|]]; simpl.
      * intros _. split; [apply lifted_top|apply lifted_left].
      * by intros [? ?].
    + simpl. intros _. split; [apply lifted_top|apply lifted_left].
  - exists (placed_at el r ev (dom wk)).
    split; [apply placed_at_top|]. split; [apply placed_at_left|].
    by apply dragMove_active.
Qed.

(** *** Dispatch *)

Lemma dispatch_silent type tgt cx cy (l : list elem) w :
  (∀ n, n ∈ l → filter (λ x : string * handler, x.1 = type) (listeners w n) = []) →
  for_each l (λ node,
    ls ← (λ w, (w, Some (listeners w node)));
    for_each (filter (λ x : string * handler, x.1 = type) ls) (λ x,
      reported (run_handler getBoundingClientRect elementFromPoint other_selector consumer x.2
                  {| clientX := cx; clientY := cy;
                     target := tgt; currentTarget := node |}))) w
  = (w, Some ()).
Proof.
  induction l as [|n l IH]; intros Hl; simpl; [done|].
  unfold mbind at 1, JS_bind at 1. unfold mbind at 1, JS_bind at 1.
  rewrite (Hl n) by apply list_elem_of_here. simpl.
  apply IH. intros n' ?. apply Hl. by apply list_elem_of_further.
Qed.

(** C10.  [dragStart] records the event's [currentTarget] as the drag
    subject and passes it to the drag-start callback, whatever the event's
    [target] is.  Hence a press on a node [tgt] one of whose inclusive
    ancestors [t] is the tracked element on the path (it has the module's
    mousedown listener; no other node of the path has one) makes [t] the
    subject and calls the callback with [t], even when [tgt] is a
    descendant of [t]. *)
Theorem drag_subject_is_the_tracked_element :
  (∀ ev w,
     dragElement (vars (exec (dragStart ev) w)) = Some (currentTarget ev) ∧
     ∀ f, dragStartCallback (vars w) = Some f →
          Call f [currentTarget ev] (dom w) ∈ log (exec (dragStart ev) w)) ∧
  (∀ w tgt t cx cy pre post,
     inclusive_ancestors (document (dom w)) tgt = pre ++ t :: post →
     filter (λ x : string * handler, x.1 = "mousedown") (listeners w t)
       = [("mousedown", HdragStart)] →
     (∀ n, n ∈ pre ++ post →
           filter (λ x : string * handler, x.1 = "mousedown") (listeners w n) = []) →
     let w' := exec (dispatch getBoundingClientRect elementFromPoint other_selector consumer
                       "mousedown" tgt cx cy) w in
     dragElement (vars w') = Some t ∧
     ∀ f, dragStartCallback (vars w) = Some f → Call f [t] (dom w) ∈ log w').
Proof.
  assert (∀ ev w,
     dragElement (vars (exec (dragStart ev) w)) = Some (currentTarget ev) ∧
     ∀ f, dragStartCallback (vars w) = Some f →
          Call f [currentTarget ev] (dom w) ∈ log (exec (dragStart ev) w)) as Hstart.
  { intros ev w. split; [apply dragStart_vars|].
    intros f Hf. unfold exec. rewrite dragStart_run. cbv zeta. rewrite Hf.
    simpl. destruct (consumer f _ _) as [d' [|]]; simpl;
      apply elem_of_app; right; apply list_elem_of_here. }
  split; [exact Hstart|].
  intros w tgt t cx cy pre post Hpath Ht Hrest.
  set (ev := {| clientX := cx; clientY := cy; target := tgt; currentTarget := t |}).
  assert (dispatch getBoundingClientRect elementFromPoint other_selector consumer
            "mousedown" tgt cx cy w = (exec (dragStart ev) w, Some ())) as E.
  { unfold dispatch. unfold mbind at 1, JS_bind at 1, getdom at 1.
    rewrite Hpath, for_each_app. unfold mbind at 1, JS_bind at 1.
    rewrite dispatch_silent.
    2:{ intros n ?. apply Hrest, elem_of_app. by left. }
    simpl. unfold mbind at 1, JS_bind at 1. unfold mbind at 1, JS_bind at 1.
    rewrite Ht. simpl. unfold mbind at 1, JS_bind at 1, reported at 1.
    simpl. fold ev. fold (exec (dragStart ev) w).
    apply dispatch_silent. intros n ?. rewrite dragStart_listeners.
    apply Hrest, elem_of_app. by right. }
  cbv zeta.
  assert (exec (dispatch getBoundingClientRect elementFromPoint other_selector consumer
                  "mousedown" tgt cx cy) w = exec (dragStart ev) w) as ->.
  { unfold exec at 1. by rewrite E. }
  apply (Hstart ev w).
Qed.

(** *** The pressed flag and the has-moved flag *)

Lemma dragEnd_isMouseDown ev w :
  isMouseDown (vars (exec (dragEnd ev) w)) = false.
Proof.
  unfold exec. destruct (dragElement (vars w)) as [el|] eqn:He.
  - rewrite (dragEnd_active ev w el He). cbv zeta.
    destruct (dropzone_found _ _ _) as [[z|]|]; [|done..].
    destruct (decide _); [done|].
    destruct (dragEndCallback (vars w)) as [f|]; [|done].
    simpl. by destruct (consumer f _ _) as [d' [|]].
  - by rewrite dragEnd_idle.
Qed.

Lemma configure_session o w :
  let v := vars (exec (configureDragAndDrop o) w) in
  dragElement v = dragElement (vars w) ∧
  dragElementRect v = dragElementRect (vars w) ∧
  isMouseDown v = isMouseDown (vars w) ∧
  isDragging v = isDragging (vars w).
Proof.
  cbv zeta.
  destruct (merged_fields o (vars w))
    as (_ & _ & _ & _ & _ & H1 & H2 & _ & H3 & H4 & _).
  by destruct (configure_vars o w) as [-> | ->].
Qed.


Lemma step_pressed_has_subject w w' :
  step getBoundingClientRect elementFromPoint other_selector consumer w w' →
  pressed_has_subject (vars w) → pressed_has_subject (vars w').
Proof.
  unfold pressed_has_subject.
  intros [o w0|records w0|ev w0|ev w0|ev w0|d w0] Hinv.
  - destruct (configure_session o w0) as (-> & -> & -> & _). done.
  - by rewrite mutationCallback_vars.
  - destruct (dragStart_vars ev w0) as (_ & _ & -> & -> & _). by intros _.
  - by rewrite dragEnd_isMouseDown.
  - destruct (dragMove_session ev w0) as (-> & -> & -> & _). done.
  - done.
Qed.

Lemma reachable_pressed_has_subject w :
  reachable getBoundingClientRect elementFromPoint other_selector consumer w →
  pressed_has_subject (vars w).
Proof.
  induction 1 as [d|w w' _ IH Hstep].
  - by intros ?.
  - by apply (step_pressed_has_subject w w').
Qed.

Lemma dragMoves_keep_isDragging evs w :
  isDragging (vars w) = true →
  isDragging (vars (foldl (λ w e, exec (dragMove e) w) w evs)) = true.
Proof.
  revert w. induction evs as [|e evs IH]; intros w Hw; simpl; [done|].
  apply IH. by destruct (dragMove_vars e w) as [-> | ->].
Qed.

Lemma dragMove_pressed_isDragging ev w :
  isMouseDown (vars w) = true → is_Some (dragElement (vars w)) →
  is_Some (dragElementRect (vars w)) →
  isDragging (vars (exec (dragMove ev) w)) = true.
Proof.
  intros Hd [el He] [r Hr]. unfold exec.
  rewrite (dragMove_active ev w el r) by done. cbv zeta.
  by destruct (dragMoveCallback (vars w)).
Qed.

(** C5.  [dragEnd] never assigns [isDragging]; [dragStart] sets it to
    [false]; a [dragMove] handled while the pointer is pressed sets it to
    [true]; among all the things that can happen, only a [dragStart] can
    take it from [true] to [false]; therefore after a press, at least one
    move and a release, it still reads [true]. *)
Theorem isDragging_is_reset_only_by_the_next_pointer_down :
  (∀ ev w, isDragging (vars (exec (dragEnd ev) w)) = isDragging (vars w)) ∧
  (∀ ev w, isDragging (vars (exec (dragStart ev) w)) = false) ∧
  (∀ ev w, reachable getBoundingClientRect elementFromPoint other_selector consumer w →
           isMouseDown (vars w) = true →
           isDragging (vars (exec (dragMove ev) w)) = true) ∧
  (∀ w w', step getBoundingClientRect elementFromPoint other_selector consumer w w' →
           isDragging (vars w) = true → isDragging (vars w') = false →
           ∃ ev, w' = exec (dragStart ev) w) ∧
  (∀ w ev0 ev evs ev1,
     isDragging
       (vars (exec (dragEnd ev1)
                (foldl (λ w e, exec (dragMove e) w)
                   (exec (dragStart ev0) w) (ev :: evs)))) = true).
Proof.
  split; [apply dragEnd_isDragging|].
  split; [intros; apply dragStart_vars|].
  split.
  { intros ev w Hreach Hd.
    destruct (reachable_pressed_has_subject w Hreach Hd).
    by apply dragMove_pressed_isDragging. }
  split.
  { intros w w' [o w0|records w0|ev w0|ev w0|ev w0|d w0] Ht Hf.
    - destruct (configure_session o w0) as (_ & _ & _ & E). congruence.
    - rewrite mutationCallback_vars in Hf. congruence.
    - by exists ev.
    - rewrite dragEnd_isDragging in Hf. congruence.
    - destruct (dragMove_vars ev w0) as [E | E]; rewrite E in Hf;
        simpl in Hf; congruence.
    - simpl in Hf. congruence. }
  intros w ev0 ev evs ev1. rewrite dragEnd_isDragging. simpl.
  apply dragMoves_keep_isDragging.
  destruct (dragStart_vars ev0 w) as (_ & Hd & He & Hr & _).
  apply dragMove_pressed_isDragging; [done|by rewrite He|by rewrite Hr].
Qed.

(** *** Pointer-up *)

Lemma inclusive_ancestors_in_document f h a :
  h ∈ ids_f f → a ∈ inclusive_ancestors f h → a ∈ ids_f f.
Proof.
  unfold inclusive_ancestors. intros Hh [->|Ha]%elem_of_cons; [done|].
  destruct (anc_f h f) as [p|] eqn:Hp; simpl in Ha; [|by apply elem_of_nil in Ha].
  unfold anc_f in Hp.
  apply first_some_Some in Hp as (l1 & k & l2 & -> & Hk & _).
  apply elem_of_ids_f. exists k. split.
  - rewrite elem_of_app, elem_of_cons. auto.
  - by apply (anc_in_ids h k p Hk).
Qed.

Lemma closest_Some d a h z :
  closest d a h = Some (Some z) →
  z ∈ inclusive_ancestors (document d) h ∧
  ∃ sel, attribute_selector other_selector a = Some sel ∧ sel d z = true.
Proof.
  unfold closest. intros (sel & Hsel & Hfind)%fmap_Some.
  symmetry in Hfind. apply find_some in Hfind as [? ?].
  split; [by rewrite list_elem_of_In|eauto].
Qed.

(** [closest] returns the nearest matching inclusive ancestor: the nodes of
    the path before it do not match. *)
Lemma closest_nearest d a h z :
  closest d a h = Some (Some z) →
  ∃ sel pre post,
    attribute_selector other_selector a = Some sel ∧
    inclusive_ancestors (document d) h = pre ++ z :: post ∧
    Forall (λ e, sel d e = false) pre.
Proof.
  unfold closest. intros (sel & Hsel & Hfind)%fmap_Some. exists sel.
  symmetry in Hfind. revert Hfind.
  generalize (inclusive_ancestors (document d) h).
  induction l as [|e l IH]; simpl; [done|].
  destruct (sel d e) eqn:E.
  - intros [= ->]. by exists [], l.
  - intros (pre & post & _ & -> & Hpre)%IH. exists (e :: pre), post.
    split; [done|]. split; [done|]. by constructor.
Qed.

(** For a plain name the selector is the presence of the attribute on an
    element. *)
Lemma closest_plain d a h :
  plain_name a = true →
  closest d a h =
  Some (List.find (λ e, isElement d e && hasAttribute d a e)
          (inclusive_ancestors (document d) h)).
Proof. intros Hp. unfold closest, attribute_selector. by rewrite Hp. Qed.

Lemma released_document el w :
  document (dom (released el w)) = document (dom w).
Proof. reflexivity. Qed.

(** What is hit is a node of the document. *)
Lemma hit_in_document el ev w h :
  hit el ev w = Some h → h ∈ ids_f (document (dom w)).
Proof.
  unfold hit, document_elementFromPoint.
  destruct (elementFromPoint _ _ _) as [h'|]; [|done].
  destruct (bool_decide _) eqn:Ein; [|done].
  destruct (isElement _ _); [|done]. simpl. intros [= <-].
  by apply bool_decide_eq_true in Ein.
Qed.

(** The dropzone found is a node of the document. *)
Lemma dropzone_in_document el ev w z :
  dropzone_found el ev w = Some (Some z) → z ∈ ids_f (document (dom w)).
Proof.
  unfold dropzone_found.
  destruct (hit el ev w) as [h|] eqn:Eh; [|done].
  intros [Hz _]%closest_Some. rewrite released_document in Hz.
  apply (inclusive_ancestors_in_document _ h); [|done].
  by apply (hit_in_document el ev w).
Qed.

(** With a hit-test that returns rendered elements only, the subject is
    hidden while the hit-test runs, so the dropzone found is not inside the
    subject: [appendChild] cannot raise. *)
Lemma dropzone_outside_subject el ev w z :
  hit_test_sound elementFromPoint →
  NoDup (ids_f (document (dom w))) →
  dropzone_found el ev w = Some (Some z) →
  z ∈ ids_f (document (dom w)) ∧
  el ∉ inclusive_ancestors (document (dom w)) z.
Proof.
  intros Hhit Hnd Ez. split; [by apply (dropzone_in_document el ev w)|].
  revert Ez. unfold dropzone_found, hit, document_elementFromPoint.
  destruct (elementFromPoint _ _ _) as [h|] eqn:Eh; [|done].
  destruct (bool_decide _ && _); [|done].
  intros [Hz _]%closest_Some. rewrite released_document in Hz.
  destruct (Hhit _ _ _ _ Eh) as [Hh Hshown].
  change (document (style_set el "display" (Kw "none") (dom w)))
    with (document (dom w)) in Hh, Hshown.
  intros Hel. apply (Hshown el).
  - by apply (inclusive_ancestors_trans _ h z el).
  - rewrite style_set_lookup by done. by rewrite decide_True.
Qed.

(** The log of [dragEnd] with a subject: the prevented default, followed by
    the call of the drop callback exactly when a dropzone outside the
    subject was found and a callback is configured. *)
Lemma dragEnd_log ev w el :
  dragElement (vars w) = Some el →
  log (exec (dragEnd ev) w) =
  log w ++ PreventDefault ::
    match drop_target elementFromPoint other_selector el ev w,
          dragEndCallback (vars w) with
    | Some z, Some f => [Call f [el; z] (dropped_into z el w)]
    | _, _ => []
    end.
Proof.
  intros He. unfold exec, drop_target.
  rewrite (dragEnd_active ev w el He). cbv zeta.
  destruct (dropzone_found el ev w) as [[z|]|]; [|done..].
  destruct (decide _); [done|].
  destruct (dragEndCallback (vars w)) as [f|]; [|done].
  unfold call. simpl.
  destruct (consumer f _ _) as [d' [|]]; simpl; by rewrite <- app_assoc.
Qed.

(** C2, as the code has it.  On pointer-up with subject [el] the hit-test
    runs on the page with [el] assigned [display: none], and the dropzone
    is the nearest inclusive ancestor of the hit that the dropzone selector
    matches.
    - If the selector is no selector the handler throws there: nothing is
      moved or called.
    - If nothing is hit, or no inclusive ancestor matches, the handler runs
      its clean-up on the page as it is: the tree is unchanged.
    - If a dropzone [z] is found that is the subject or lies inside it,
      [appendChild] throws: nothing is moved or called.
    - Otherwise [el] is appended to [z]: on the page [d1] so obtained [el]
      is the last child of [z] and [z] the parent of [el]; the drop
      callback, if any, is entered on [d1] with arguments [el] and [z], and
      the page the handler leaves is the one the callback left, cleaned up
      when the callback returned; without a callback it is [d1] cleaned
      up.
    Hence a configured drop callback is called if and only if a dropzone
    outside the subject is found, and when none is, the tree, so the parent
    of [el], is as before and only the prevented default is logged.  When
    the dropzone marker is a plain name, the dropzone found is the first
    node on the path from the hit to the root that is an element having the
    marker attribute. *)
Theorem drop_callback_iff_dropzone_found (ev : MouseEvent) (w : World) (el : elem) :
  dragElement (vars w) = Some el →
  let w' := exec (dragEnd ev) w in
  let w1 := released el w in
  match dropzone_found el ev w with
  | None => ¬ returns (dragEnd ev) w ∧ w' = w1
  | Some None => w' = cleaned el w1
  | Some (Some z) =>
      z ∈ ids_f (document (dom w)) ∧
      if decide (el ∈ inclusive_ancestors (document (dom w)) z)
      then ¬ returns (dragEnd ev) w ∧ w' = w1
      else
        let d1 := dropped_into z el w in
        document d1 = moved z el (document (dom w)) ∧
        list.last (childNodes (document d1) z) = Some el ∧
        parentNode (document d1) el = Some z ∧
        match dragEndCallback (vars w) with
        | Some f =>
            log w' = log w ++ [PreventDefault; Call f [el; z] d1] ∧
            dom w' = (if (consumer f [el; z] d1).2
                      then style_clear el (consumer f [el; z] d1).1
                      else (consumer f [el; z] d1).1)
        | None => w' = cleaned el (with_dom d1 w1)
        end
  end ∧
  (drop_target elementFromPoint other_selector el ev w = None →
   document (dom w') = document (dom w) ∧
   parentNode (document (dom w')) el = parentNode (document (dom w)) el ∧
   log w' = log w ++ [PreventDefault]) ∧
  (∀ f, dragEndCallback (vars w) = Some f →
        (∃ z d, Call f [el; z] d ∈ drop (length (log w)) (log w')) ↔
        is_Some (drop_target elementFromPoint other_selector el ev w)) ∧
  (plain_name (template (dropzoneAttribute (vars w))) = true →
   ∀ z, dropzone_found el ev w = Some (Some z) →
        ∃ h pre post,
          hit el ev w = Some h ∧
          inclusive_ancestors (document (dom w)) h = pre ++ z :: post ∧
          isElement (dom w) z = true ∧
          hasAttribute (dom w) (template (dropzoneAttribute (vars w))) z
            = true ∧
          Forall (λ e, isElement (dom w) e &&
                       hasAttribute (dom w)
                         (template (dropzoneAttribute (vars w))) e = false)
            pre).
Proof.
  intros He w' w1. split; [|split; [|split]].
  - unfold w', w1, returns, exec.
    rewrite (dragEnd_active ev w el He). cbv zeta.
    destruct (dropzone_found el ev w) as [[z|]|] eqn:Ez.
    + split; [by apply (dropzone_in_document el ev w)|].
      destruct (decide (el ∈ inclusive_ancestors (document (dom w)) z))
        as [Hin|Hout].
      { split; [by intros [? ?]|done]. }
      destruct (moved_spec (document (dom w)) z el
                  (dropzone_in_document el ev w z Ez) Hout)
        as [Hlast Hparent].
      split; [done|]. split; [exact Hlast|]. split; [exact Hparent|].
      destruct (dragEndCallback (vars w)) as [f|]; [|done].
      unfold call. simpl.
      destruct (consumer f [el; z] (dropped_into z el w)) as [d' [|]];
        simpl; by rewrite <- app_assoc.
    + done.
    + split; [by intros [? ?]|done].
  - intros Hnone. unfold w'. rewrite (dragEnd_log ev w el He), Hnone.
    assert (document (dom (exec (dragEnd ev) w)) = document (dom w)) as ->;
      [|done].
    revert Hnone. unfold exec, drop_target.
    rewrite (dragEnd_active ev w el He). cbv zeta.
    destruct (dropzone_found el ev w) as [[z|]|]; [|done..].
    by destruct (decide _).
  - intros f Hf. unfold w'. rewrite (dragEnd_log ev w el He), Hf.
    rewrite drop_app_length.
    destruct (drop_target elementFromPoint other_selector el ev w) as [z|].
    + split; [by eauto|]. intros _. exists z, (dropped_into z el w).
      apply list_elem_of_further, list_elem_of_here.
    + split; [|by intros [? ?]].
      intros (z & d & Hin). apply list_elem_of_singleton in Hin. discriminate.
  - intros Hplain z. unfold dropzone_found.
    destruct (hit el ev w) as [h|]; [|done].
    intros Hz. pose proof Hz as [_ (sel' & Hsel' & Hbears)]%closest_Some.
    apply closest_nearest in Hz as (sel & pre & post & Hsel & Hpath & Hpre).
    unfold attribute_selector in Hsel, Hsel'. rewrite Hplain in Hsel, Hsel'.
    injection Hsel as <-. injection Hsel' as <-.
    apply andb_true_iff in Hbears as [Hel Hattr].
    exists h, pre, post. by rewrite released_document in Hpath.
Qed.

(** The dropzone selector is a selector: the search of [dragEnd] for a
    dropzone does not throw. *)
Lemma dropzone_found_total el ev w :
  is_Some (attribute_selector other_selector
             (template (dropzoneAttribute (vars w)))) →
  is_Some (dropzone_found el ev w).
Proof.
  intros [sel Hsel]. unfold dropzone_found, closest.
  destruct (hit el ev w); [|eauto]. rewrite Hsel. simpl. eauto.
Qed.



End Lifecycle.

(** * The example page *)

Lemma example_hit_test_sound : hit_test_sound Example.elementFromPoint.
Proof.
  intros d cx cy h. unfold Example.elementFromPoint.
  destruct (existsb _ _) eqn:Ehid; simpl; [done|].
  destruct (bool_decide (Example.cell ∈ ids_f (document d))) eqn:Ein;
    simpl; [|done].
  intros [= <-]. split; [by apply bool_decide_eq_true in Ein|].
  intros a Ha Hnone.
  assert (existsb (Example.hidden d)
            (inclusive_ancestors (document d) Example.cell) = true) as Hex.
  { apply existsb_exists. exists a. split; [by apply list_elem_of_In|].
    unfold Example.hidden. by rewrite Hnone. }
  congruence.
Defined.

Lemma example_dragged_NoDup :
  NoDup (ids_f (document (dom Example.dragged))).
Proof. apply (bool_decide_unpack _). vm_compute. exact I. Defined.

(** C9 on the example: a move over the piece before any press. *)
Lemma dragMove_without_session_witness :
  isMouseDown (vars Example.configured) = false ∧
  dragMove Example.consumer (Example.at_piece 200 200) Example.configured =
  (Example.configured, Some ()).
Proof.
  split; [reflexivity|].
  apply dragMove_without_session_is_a_no_op. left. reflexivity.
Defined.



(** C1 on the example: pressed at (100, 100), moved to (150, 150) and then
    to (200, 200), with a 50 by 50 rectangle. *)
Lemma element_kept_centred_witness :
  returns (dragStart Example.getBoundingClientRect Example.consumer
             (Example.at_piece 100 100)) Example.configured ∧
  style (dom Example.down) Example.piece !! "top" = Some (Px (100 - 50 / 2)) ∧
  style (dom Example.down) Example.piece !! "left" = Some (Px (100 - 50 / 2)) ∧
  ∃ placed : Dom,
    style placed Example.piece !! "top" = Some (Px (200 - 50 / 2)) ∧
    style placed Example.piece !! "left" = Some (Px (200 - 50 / 2)).
Proof.
  assert (returns (dragStart Example.getBoundingClientRect Example.consumer
                     (Example.at_piece 100 100)) Example.configured) as Hret.
  { vm_compute. eauto. }
  split; [exact Hret|].
  destruct (element_kept_centred_under_pointer
              Example.getBoundingClientRect Example.consumer
              (Example.at_piece 100 100) Example.configured
              [Example.at_piece 150 150] (Example.at_piece 200 200))
    as (Hstart & _ & _ & _ & placed & Htop & Hleft & _).
  destruct (Hstart Hret) as [H1 H2].
  split; [exact H1|]. split; [exact H2|].
  exists placed. split; [exact Htop|exact Hleft].
Defined.

(** C10 on the example: a press on the glyph inside the tracked piece. *)
Lemma drag_subject_witness :
  inclusive_ancestors (document (dom Example.configured)) Example.glyph =
    [Example.glyph] ++ Example.piece :: [Example.board] ∧
  dragElement
    (vars (exec (dispatch Example.getBoundingClientRect Example.elementFromPoint
                   Example.other_selector Example.consumer "mousedown" Example.glyph 100 100)
             Example.configured)) = Some Example.piece.
Proof.
  assert (inclusive_ancestors (document (dom Example.configured)) Example.glyph =
            [Example.glyph] ++ Example.piece :: [Example.board]) as Hpath
    by reflexivity.
  split; [exact Hpath|].
  destruct (drag_subject_is_the_tracked_element
              Example.getBoundingClientRect Example.elementFromPoint
              Example.other_selector Example.consumer) as [_ Hpress].
  apply (Hpress Example.configured Example.glyph Example.piece 100%Q 100%Q
           [Example.glyph] [Example.board] Hpath).
  - reflexivity.
  - intros n Hn. apply elem_of_cons in Hn as [->|Hn]; [reflexivity|].
    apply list_elem_of_singleton in Hn as ->. reflexivity.
Defined.

Lemma example_down_reachable :
  reachable Example.getBoundingClientRect Example.elementFromPoint
    Example.other_selector Example.consumer Example.down.
Proof.
  apply reachable_step with Example.configured.
  - apply reachable_step with (initial_world Example.page).
    + apply reachable_initial.
    + apply step_configure.
  - apply step_dragStart.
Defined.

(** C5 on the example: the piece is pressed, moved and released. *)
Lemma isDragging_witness :
  isMouseDown (vars Example.down) = true ∧
  isDragging (vars Example.down) = false ∧
  isDragging (vars Example.dragged) = true ∧
  isDragging (vars Example.dropped) = true.
Proof.
  destruct (isDragging_is_reset_only_by_the_next_pointer_down
              Example.getBoundingClientRect Example.elementFromPoint
              Example.other_selector Example.consumer) as (Hend & Hstart & Hmove & _ & _).
  assert (isMouseDown (vars Example.down) = true) as Hd by reflexivity.
  split; [exact Hd|]. split; [apply Hstart|].
  assert (isDragging (vars Example.dragged) = true) as Hdr.
  { apply Hmove; [apply example_down_reachable|exact Hd]. }
  split; [exact Hdr|].
  unfold Example.dropped. rewrite Hend. exact Hdr.
Defined.

(** C2 as stated fails.  On the page where the subject cannot be hidden,
    the crate is released over its own slot: the hit-test finds the slot,
    the slot bears the dropzone marker, a drop callback is configured, and
    yet the callback is not called, because [appendChild] throws. *)
Lemma dropzone_inside_the_subject_is_not_called :
  dragElement (vars Sticky.down) = Some Sticky.crate ∧
  dragEndCallback (vars Sticky.down) = Some 12 ∧
  hit Sticky.elementFromPoint Sticky.crate (Sticky.at_crate 100 100)
    Sticky.down = Some Sticky.slot ∧
  hasAttribute (dom Sticky.down) "data-drop" Sticky.slot = true ∧
  dropzone_found Sticky.elementFromPoint Example.other_selector Sticky.crate
    (Sticky.at_crate 100 100) Sticky.down = Some (Some Sticky.slot) ∧
  ¬ (∃ z d, Call 12 [Sticky.crate; z] d ∈
            drop (length (log Sticky.down)) (log Sticky.up)).
Proof.
  repeat (split; [reflexivity|]).
  assert (log Sticky.up = log Sticky.down ++ [PreventDefault]) as ->
    by (vm_compute; reflexivity).
  rewrite drop_app_length. intros (z & d & Hin).
  apply list_elem_of_singleton in Hin. discriminate.
Qed.

(** C2 as the code has it, on the example: the pointer is released over the
    cell inside the dropzone. *)
Lemma drop_callback_witness :
  dragElement (vars Example.dragged) = Some Example.piece ∧
  list.last (childNodes
               (document (dropped_into Example.zone Example.piece
                            Example.dragged)) Example.zone)
    = Some Example.piece ∧
  log Example.dropped =
    log Example.dragged ++
    [PreventDefault;
     Call 12 [Example.piece; Example.zone]
       (dropped_into Example.zone Example.piece Example.dragged)].
Proof.
  assert (dragElement (vars Example.dragged) = Some Example.piece) as He
    by reflexivity.
  split; [exact He|].
  pose proof (proj1 (drop_callback_iff_dropzone_found
                       Example.elementFromPoint Example.other_selector
                       Example.consumer
                       (Example.at_piece 200 200) Example.dragged
                       Example.piece He)) as H.
  cbv zeta in H.
  change (dropzone_found Example.elementFromPoint Example.other_selector
            Example.piece (Example.at_piece 200 200) Example.dragged)
    with (Some (Some Example.zone)) in H.
  destruct H as [_ H].
  destruct (decide _) as [Hin|_] in H.
  { apply (bool_decide_pack _) in Hin. vm_compute in Hin. destruct Hin. }
  destruct H as (_ & Hlast & _ & Hlog & _).
  split; [exact Hlast|exact Hlog].
Defined.





(** C6 as stated fails: the icon is an element node, it is itself listed
    among the added nodes and it bears the draggable marker, but the
    watcher does not attach to it, because it is no [HTMLElement]. *)
Lemma marked_svg_element_is_not_attached :
  Example.icon ∈ mjoin (addedNodes <$> Example.insertion) ∧
  isElement (dom Example.grown) Example.icon = true ∧
  draggableAttribute (vars Example.grown) = Some "data-drag" ∧
  hasAttribute (dom Example.grown) "data-drag" Example.icon = true ∧
  listeners (exec (mutationCallback Example.insertion) Example.grown)
    Example.icon = [].
Proof.
  split; [|repeat split; reflexivity].
  unfold Example.insertion. simpl. rewrite !elem_of_cons. auto 6.
Qed.

(** C6 as the code has it, on the example: the tray (holding the marked
    spare), the marked extra, a text node and the marked icon are inserted
    under the board. *)
Lemma mutationCallback_witness :
  listeners (exec (mutationCallback Example.insertion) Example.grown)
    Example.extra =
    [("mousedown", HdragStart); ("mouseup", HdragEnd); ("mousemove", HdragMove)] ∧
  ("mousedown", HdragStart) ∈
    listeners (exec (mutationCallback Example.insertion) Example.grown)
      Example.extra ∧
  listeners (exec (mutationCallback Example.insertion) Example.grown)
    Example.caption = [] ∧
  hasAttribute Example.grown_page "data-drag" Example.spare = true ∧
  listeners (exec (mutationCallback Example.insertion) Example.grown)
    Example.spare = [].
Proof.
  destruct (mutationCallback_attaches_top_level_only
              Example.insertion Example.grown)
    as (_ & _ & Hall & Hhas & Hnon & Hnested).
  split; [rewrite Hall; reflexivity|].
  split.
  { apply Hhas; [|reflexivity].
    unfold Example.insertion. simpl. rewrite !elem_of_cons. auto. }
  split; [rewrite Hnon; reflexivity|].
  split; [reflexivity|].
  rewrite (Hnested Example.tray (T Example.tray [T Example.spare []])
             Example.spare).
  - reflexivity.
  - unfold Example.insertion. simpl. rewrite !elem_of_cons. auto.
  - reflexivity.
  - simpl. rewrite !elem_of_cons. auto.
  - unfold Example.insertion. simpl. rewrite !not_elem_of_cons.
    repeat split; try discriminate. apply not_elem_of_nil.
Defined.

(** ** The scenario of the specification on the example page

    The piece, 50 by 50, is pressed at (100, 100), dragged to (200, 200)
    and released there over the cell inside the dropzone. *)

Example scenario_just_before_the_drop :
  ∃ top left : Q,
    style (dom Example.dragged) Example.piece !! "top" = Some (Px top) ∧
    style (dom Example.dragged) Example.piece !! "left" = Some (Px left) ∧
    (top == 175)%Q ∧ (left == 175)%Q.
Proof. exists (350 # 2), (350 # 2). repeat split; reflexivity. Qed.

Example scenario_after_the_drop :
  childNodes (document (dom Example.dropped)) Example.zone =
    [Example.cell; Example.piece] ∧
  childNodes (document (dom Example.dropped)) Example.piece =
    [Example.glyph] ∧
  parentNode (document (dom Example.dropped)) Example.piece =
    Some Example.zone.
Proof. vm_compute. repeat split; reflexivity. Qed.

(** A drag-start callback that throws leaves the subject recorded and the
    pointer pressed, and the element unplaced. *)
Remark throwing_start_callback_skips_placement :
  let w := exec (dragStart Example.getBoundingClientRect Example.throwing
                   (Example.at_piece 100 100)) Example.configured in
  ¬ returns (dragStart Example.getBoundingClientRect Example.throwing
               (Example.at_piece 100 100)) Example.configured ∧
  dragElement (vars w) = Some Example.piece ∧
  isMouseDown (vars w) = true ∧
  style (dom w) Example.piece !! "top" = None.
Proof.
  cbv zeta. split; [|repeat split; reflexivity].
  intros [u Hu]. vm_compute in Hu. discriminate.
Qed.

(** A drop callback that throws leaves the session in place. *)
Remark throwing_drop_callback_keeps_session :
  let w := exec (dragEnd Example.elementFromPoint Example.other_selector Example.throwing
                   (Example.at_piece 200 200)) Example.dragged in
  dragElement (vars w) = Some Example.piece ∧
  style (dom w) Example.piece !! "position" = Some (Kw "absolute").
Proof. cbv zeta. split; reflexivity. Qed.

(** * Further properties of the module *)

(** ** Discovery at configuration time *)

Section Discovery.

Variable other_selector : string → option (Dom → elem → bool).

Abbreviation configureDragAndDrop := (configureDragAndDrop other_selector).
Abbreviation querySelectorAll := (querySelectorAll other_selector).
Abbreviation attribute_selector := (attribute_selector other_selector).

Lemma querySelectorAll_elem d a sel e :
  attribute_selector a = Some sel →
  ∀ els, querySelectorAll d a = Some els →
         e ∈ els ↔ e ∈ ids_f (document d) ∧ sel d e = true.
Proof.
  intros Hsel els. unfold querySelectorAll. rewrite Hsel. simpl.
  intros [= <-]. rewrite list_elem_of_filter. tauto.
Qed.

(** X1.  Let the draggable marker in force after the merge of the options
    be the supplied one when truthy, the stored one otherwise, ["null"]
    when there is none.  When the selector built from it is a selector,
    [configureDragAndDrop] attaches the three listeners to exactly the
    nodes of the document it matches, and every other node keeps its
    listener list; when it is not, no listener is attached.  For a plain
    name the nodes matched are the elements, HTML or not, that have the
    attribute, the name being compared in lower case on HTML elements. *)
Theorem configure_attaches_to_marked_document_nodes (o : DragOptions.t) (w : World) :
  let w' := exec (configureDragAndDrop o) w in
  let marker := marker_after o (vars w) in
  (∀ e, listeners w' e =
        match attribute_selector marker with
        | Some sel =>
            if bool_decide (e ∈ ids_f (document (dom w)) ∧ sel (dom w) e = true)
            then attached (listeners w e)
            else listeners w e
        | None => listeners w e
        end) ∧
  (plain_name marker = true →
   ∀ e, listeners w' e =
        if bool_decide (e ∈ ids_f (document (dom w)) ∧
                        isElement (dom w) e = true ∧
                        hasAttribute (dom w) marker e = true)
        then attached (listeners w e)
        else listeners w e).
Proof.
  cbv zeta.
  assert (∀ e, listeners (exec (configureDragAndDrop o) w) e =
               match attribute_selector (marker_after o (vars w)) with
               | Some sel =>
                   if bool_decide (e ∈ ids_f (document (dom w)) ∧
                                   sel (dom w) e = true)
                   then attached (listeners w e)
                   else listeners w e
               | None => listeners w e
               end) as Hall.
  { intros e. unfold exec.
    pose proof (configure_full other_selector o w) as H. cbv zeta in H.
    destruct (attribute_selector (marker_after o (vars w))) as [sel|] eqn:Hsel.
    - destruct (querySelectorAll (dom w) (marker_after o (vars w)))
        as [els|] eqn:Hels.
      2:{ unfold querySelectorAll in Hels. by rewrite Hsel in Hels. }
      destruct H as (w' & -> & _ & _ & _ & HL & _). simpl. rewrite HL.
      pose proof (querySelectorAll_elem (dom w) _ sel e Hsel els Hels) as Hin.
      destruct (decide (e ∈ els)).
      + rewrite !bool_decide_eq_true_2; [done|tauto|done].
      + rewrite !bool_decide_eq_false_2; [done|tauto|done].
    - unfold querySelectorAll in H. rewrite Hsel in H. simpl in H.
      by rewrite H. }
  split; [exact Hall|].
  intros Hplain e. rewrite Hall. unfold attribute_selector.
  rewrite Hplain.
  destruct (decide (e ∈ ids_f (document (dom w)) ∧
                    isElement (dom w) e = true ∧
                    hasAttribute (dom w) (marker_after o (vars w)) e = true))
    as [(? & He & Ha)|Hno].
  - rewrite !bool_decide_eq_true_2; [done|done|]. by rewrite He, Ha.
  - rewrite !bool_decide_eq_false_2; [done|done|].
    rewrite andb_true_iff. tauto.
Qed.

(** X2.  [configureDragAndDrop] returns exactly when the selector built
    from the draggable marker is a selector and the document has a body.
    When the selector is no selector the call throws before it does
    anything but merge the options: nothing is logged, attached,
    constructed or registered.  Otherwise it logs one warning, naming the
    marker, when nothing in the document matches, and nothing when
    something does; it constructs a watcher and stores it in [observer];
    and only then, when the document has no body, it throws, with nothing
    registered. *)
Theorem configure_warns_when_nothing_matches (o : DragOptions.t) (w : World) :
  let w' := exec (configureDragAndDrop o) w in
  let marker := marker_after o (vars w) in
  (returns (configureDragAndDrop o) w ↔
   is_Some (attribute_selector marker) ∧ is_Some (body (dom w))) ∧
  (log w' = log w ++
            match querySelectorAll (dom w) marker with
            | Some [] =>
                [Warn ("No elements with '" +:+ marker +:+ "' in the DOM")]
            | _ => []
            end) ∧
  (match querySelectorAll (dom w) marker with
   | Some _ =>
       observer (vars w') = Some (constructed w) ∧
       constructed w' = S (constructed w)
   | None =>
       observer (vars w') = observer (vars w) ∧
       constructed w' = constructed w ∧
       listeners w' = listeners w ∧
       registered w' = registered w
   end) ∧
  (body (dom w) = None → registered w' = registered w).
Proof.
  cbv zeta. split; [|split; [|split]].
  - rewrite configure_returns. unfold querySelectorAll.
    by rewrite fmap_is_Some.
  - unfold exec. pose proof (configure_full other_selector o w) as H.
    cbv zeta in H.
    destruct (querySelectorAll (dom w) (marker_after o (vars w))) as [els|].
    + destruct H as (w' & -> & _ & _ & Hlog & _). simpl. rewrite Hlog.
      by destruct els.
    + rewrite H. simpl. by rewrite app_nil_r.
  - unfold exec. pose proof (configure_full other_selector o w) as H.
    cbv zeta in H.
    destruct (querySelectorAll (dom w) (marker_after o (vars w))) as [els|].
    + destruct H as (w' & -> & Hv & _ & _ & _ & Hc & _). simpl.
      by rewrite Hv, Hc.
    + rewrite H. simpl.
      by destruct (merged_fields o (vars w))
        as (_ & _ & _ & _ & _ & _ & _ & _ & _ & _ & ->).
  - intros Hb. unfold exec. pose proof (configure_full other_selector o w) as H.
    cbv zeta in H.
    destruct (querySelectorAll (dom w) (marker_after o (vars w))) as [els|].
    + destruct H as (w' & -> & _ & _ & _ & _ & _ & Hr). simpl.
      by rewrite Hr, Hb.
    + by rewrite H.
Qed.

End Discovery.

Lemma attached_nil_or_full l :
  l = [] ∨ l = attached [] → attached l = attached [].
Proof. intros [-> | ->]; [done|apply attached_idemp]. Qed.

Lemma mutationCallback_listeners records w e :
  listeners (exec (mutationCallback records) w) e = listeners w e ∨
  listeners (exec (mutationCallback records) w) e = attached (listeners w e).
Proof.
  unfold exec, mutationCallback. rewrite for_each_nested.
  destruct (attach_loop (mjoin (addedNodes <$> records)) w)
    as (w' & -> & _ & L). simpl. rewrite L.
  destruct (_ && _); auto.
Qed.

(** ** The drag session *)

Section Sessions.

Variable getBoundingClientRect : Dom → elem → DOMRect.
Variable elementFromPoint : Dom → Q → Q → option elem.
Variable other_selector : string → option (Dom → elem → bool).
Variable consumer : fn → list elem → Dom → Dom * bool.

Abbreviation dragStart := (dragStart getBoundingClientRect consumer).
Abbreviation dragEnd := (dragEnd elementFromPoint other_selector consumer).
Abbreviation dragMove := (dragMove consumer).
Abbreviation call := (call consumer).
Abbreviation configureDragAndDrop := (configureDragAndDrop other_selector).
Abbreviation querySelectorAll := (querySelectorAll other_selector).
Abbreviation dropzone_found := (dropzone_found elementFromPoint other_selector).
Abbreviation reachable :=
  (reachable getBoundingClientRect elementFromPoint other_selector consumer).
Abbreviation step :=
  (step getBoundingClientRect elementFromPoint other_selector consumer).

Lemma configure_listeners o w e :
  listeners (exec (configureDragAndDrop o) w) e = listeners w e ∨
  listeners (exec (configureDragAndDrop o) w) e = attached (listeners w e).
Proof.
  unfold exec. pose proof (configure_full other_selector o w) as H.
  cbv zeta in H.
  destruct (querySelectorAll (dom w) (marker_after o (vars w))) as [els|].
  - destruct H as (w' & -> & _ & _ & _ & L & _).
    simpl. rewrite L. destruct (bool_decide _); auto.
  - rewrite H. by left.
Qed.

Lemma dragMove_listeners ev w :
  listeners (exec (dragMove ev) w) = listeners w.
Proof.
  unfold exec.
  destruct (dragElement (vars w)) as [el|] eqn:He;
    [destruct (dragElementRect (vars w)) as [r|] eqn:Hr;
     [destruct (isMouseDown (vars w)) eqn:Hd|]|].
  - rewrite (dragMove_active consumer ev w el r) by done. cbv zeta.
    by destruct (dragMoveCallback (vars w)).
  - rewrite dragMove_inactive; auto.
  - rewrite dragMove_inactive; auto.
  - rewrite dragMove_inactive; auto.
Qed.

(** [dragEnd] either leaves the session as it is (no subject, or an
    exception on the way) or clears it. *)
Lemma dragEnd_outcome ev w :
  let w' := exec (dragEnd ev) w in
  listeners w' = listeners w ∧
  ((vars w' = set_isMouseDown false (vars w) ∧
    (returns (dragEnd ev) w → dragElement (vars w) = None))
   ∨ vars w' =
     set_startingMousePosition None
       (set_dragElementRect None
          (set_dragElement None (set_isMouseDown false (vars w))))).
Proof.
  cbv zeta. unfold returns, exec.
  destruct (dragElement (vars w)) as [el|] eqn:He.
  - rewrite (dragEnd_active elementFromPoint other_selector consumer ev w el He). cbv zeta.
    destruct (dropzone_found _ _ _) as [[z|]|]; [|split; [done|by right]|].
    2:{ split; [done|]. left. split; [done|]. by intros [? ?]. }
    destruct (decide _).
    { split; [done|]. left. split; [done|]. by intros [? ?]. }
    destruct (dragEndCallback (vars w)) as [f|]; [|split; [done|by right]].
    unfold call; simpl.
    destruct (consumer f _ _) as [d' [|]]; simpl.
    + split; [done|by right].
    + split; [done|]. left. split; [done|]. by intros [? ?].
  - rewrite dragEnd_idle by done. split; [done|]. left. by split.
Qed.

Lemma set_isMouseDown_false_id v :
  isMouseDown v = false → set_isMouseDown false v = v.
Proof. destruct v. simpl. by intros ->. Qed.

Lemma step_listeners w w' e :
  step w w' →
  listeners w' e = listeners w e ∨ listeners w' e = attached (listeners w e).
Proof.
  intros [o w0|records w0|ev w0|ev w0|ev w0|d w0].
  - apply configure_listeners.
  - apply mutationCallback_listeners.
  - left. by rewrite dragStart_listeners.
  - left. by destruct (dragEnd_outcome ev w0) as [-> _].
  - left. by rewrite dragMove_listeners.
  - by left.
Qed.

(** X3.  In every state the module can reach, an element carries either
    none of the module's listeners or exactly the three of them, once each:
    repeated configuration and the watcher never register a listener
    twice. *)
Theorem every_element_untracked_or_tracked_once (w : World) :
  reachable w →
  ∀ e, listeners w e = [] ∨
       listeners w e =
       [("mousedown", HdragStart); ("mouseup", HdragEnd);
        ("mousemove", HdragMove)].
Proof.
  change [("mousedown", HdragStart); ("mouseup", HdragEnd);
          ("mousemove", HdragMove)] with (attached []).
  induction 1 as [d|w w' _ IH Hstep]; intros e; [by left|].
  destruct (step_listeners w w' e Hstep) as [-> | ->]; [apply IH|].
  right. apply attached_nil_or_full, IH.
Qed.

Lemma dragStart_log ev w :
  log (exec (dragStart ev) w) =
  log w ++ PreventDefault ::
    match dragStartCallback (vars w) with
    | Some f => [Call f [currentTarget ev] (dom w)]
    | None => []
    end.
Proof.
  unfold exec. rewrite dragStart_run. cbv zeta.
  destruct (dragStartCallback (vars w)) as [f|]; [|done].
  unfold call. simpl.
  destruct (consumer f _ _) as [d' [|]]; simpl; by rewrite <- app_assoc.
Qed.

(** X4.  [dragStart] prevents the default action and then calls the
    drag-start callback, if there is one, exactly once, with the event's
    current target, on the page exactly as it was before the press: no
    style has been written yet.  This is all it logs, whether the callback
    returns or throws. *)
Theorem dragStart_notifies_before_any_style_write (ev : MouseEvent) (w : World) :
  log (exec (dragStart ev) w) =
  log w ++ PreventDefault ::
    match dragStartCallback (vars w) with
    | Some f => [Call f [currentTarget ev] (dom w)]
    | None => []
    end.
Proof. apply dragStart_log. Qed.

(** X5.  When [dragStart] returns, the subject's inline width and height
    are those of the rectangle it measured before calling the callback,
    its inline position is "absolute", and the starting pointer position
    holds the event's coordinates. *)
Theorem dragStart_freezes_the_footprint (ev : MouseEvent) (w : World) :
  returns (dragStart ev) w →
  let el := currentTarget ev in
  let r := getBoundingClientRect (dom w) el in
  let w' := exec (dragStart ev) w in
  style (dom w') el !! "width" = Some (Px (width r)) ∧
  style (dom w') el !! "height" = Some (Px (height r)) ∧
  style (dom w') el !! "position" = Some (Kw "absolute") ∧
  startingMousePosition (vars w') =
    Some {| x := clientX ev; y := clientY ev |}.
Proof.
  unfold returns, exec. rewrite dragStart_run. cbv zeta.
  assert (∀ w0,
    let w' := lifted (currentTarget ev)
                (getBoundingClientRect (dom w) (currentTarget ev)) ev w0 in
    style (dom w') (currentTarget ev) !! "width" =
      Some (Px (width (getBoundingClientRect (dom w) (currentTarget ev)))) ∧
    style (dom w') (currentTarget ev) !! "height" =
      Some (Px (height (getBoundingClientRect (dom w) (currentTarget ev)))) ∧
    style (dom w') (currentTarget ev) !! "position" = Some (Kw "absolute") ∧
    startingMousePosition (vars w') =
      Some {| x := clientX ev; y := clientY ev |}) as Hlift.
  { intros w0. cbv zeta. rewrite dom_lifted.
    repeat split.
    - rewrite style_set_lookup by done.
      rewrite decide_False by (by intros [_ ?]).
      rewrite placed_at_other by (right; done).
      rewrite style_set_lookup by done.
      rewrite decide_False by (by intros [_ ?]).
      rewrite style_set_lookup by done. by rewrite decide_True.
    - rewrite style_set_lookup by done.
      rewrite decide_False by (by intros [_ ?]).
      rewrite placed_at_other by (right; done).
      rewrite style_set_lookup by done. by rewrite decide_True.
    - rewrite style_set_lookup by done. by rewrite decide_True. }
  destruct (dragStartCallback (vars w)) as [f|].
  - destruct (call f _ _) as [w2 [[]|]]; simpl.
    + intros _. apply Hlift.
    + by intros [? ?].
  - intros _. apply Hlift.
Qed.

(** X6.  After a pointer-up that returned, a second pointer-up finds no
    subject: it prevents the default action and changes nothing else; in
    particular it runs no hit-test, moves nothing and calls nothing. *)
Theorem second_release_only_prevents_default (ev1 ev2 : MouseEvent) (w : World) :
  returns (dragEnd ev1) w →
  let w1 := exec (dragEnd ev1) w in
  dragEnd ev2 w1 = (with_log (log w1 ++ [PreventDefault]) w1, Some ()).
Proof.
  intros Hret. cbv zeta.
  destruct (dragEnd_outcome ev1 w) as [_ [[Hv Hnone]|Hv]].
  - rewrite dragEnd_idle by (rewrite Hv; simpl; auto).
    rewrite Hv. simpl. rewrite <- Hv.
    by rewrite set_isMouseDown_false_id, with_vars_id by by rewrite Hv.
  - rewrite dragEnd_idle by by rewrite Hv.
    by rewrite set_isMouseDown_false_id, with_vars_id by by rewrite Hv.
Qed.

(** X9.  After any pointer-up, whether it returned or threw and whether or
    not the session was cleared, a pointer-move is ignored. *)
Theorem moves_after_release_are_ignored (ev1 ev2 : MouseEvent) (w : World) :
  dragMove ev2 (exec (dragEnd ev1) w) = (exec (dragEnd ev1) w, Some ()).
Proof.
  apply dragMove_inactive. left.
  by destruct (dragEnd_outcome ev1 w) as [_ [[-> _]| ->]].
Qed.

Lemma configure_frame o w :
  let w' := exec (configureDragAndDrop o) w in
  dom w' = dom w ∧
  dragElement (vars w') = dragElement (vars w) ∧
  dragElementRect (vars w') = dragElementRect (vars w) ∧
  startingMousePosition (vars w') = startingMousePosition (vars w) ∧
  isMouseDown (vars w') = isMouseDown (vars w) ∧
  isDragging (vars w') = isDragging (vars w).
Proof.
  cbv zeta. split; [apply configure_dom|].
  destruct (merged_fields o (vars w))
    as (_ & _ & _ & _ & _ & H1 & H2 & H3 & H4 & H5 & _).
  by destruct (configure_vars other_selector o w) as [-> | ->].
Qed.

Lemma step_session_consistent w w' :
  step w w' → session_consistent (vars w) → session_consistent (vars w').
Proof.
  unfold session_consistent.
  intros [o w0|records w0|ev w0|ev w0|ev w0|d w0] (Hdown & Hrect & Hpos).
  - by destruct (configure_frame o w0) as (_ & -> & -> & -> & -> & _).
  - by rewrite mutationCallback_vars.
  - destruct (dragStart_vars getBoundingClientRect consumer ev w0)
      as (_ & _ & -> & -> & _).
    repeat split; eauto.
  - destruct (dragEnd_outcome ev w0) as [_ [[-> _]| ->]]; simpl.
    + split; [done|]. by split.
    + split; [done|]. split; [|by intros [? ?]].
      split; by intros [? ?].
  - by destruct (dragMove_vars consumer ev w0) as [-> | ->].
  - done.
Qed.

(** X7.  In every state the module can reach, a pressed pointer comes with
    a subject, a subject comes with its rectangle and the rectangle with
    its subject, and a recorded starting position comes with a subject: the
    session variables are set by [dragStart] and cleared by [dragEnd]
    together. *)
Theorem session_variables_go_together (w : World) :
  reachable w → session_consistent (vars w).
Proof.
  induction 1 as [d|w w' _ IH Hstep].
  - split; [done|]. split; [|by intros [? ?]]. split; by intros [? ?].
  - by apply (step_session_consistent w w').
Qed.

(** X8.  The pointer handlers and the watcher never assign a configuration
    variable: the two markers, the three callbacks and the [observer]
    variable are changed by [configureDragAndDrop] only. *)
Theorem handlers_keep_the_configuration :
  (∀ ev w, configuration (vars (exec (dragStart ev) w)) = configuration (vars w)) ∧
  (∀ ev w, configuration (vars (exec (dragMove ev) w)) = configuration (vars w)) ∧
  (∀ ev w, configuration (vars (exec (dragEnd ev) w)) = configuration (vars w)) ∧
  (∀ records w,
     configuration (vars (exec (mutationCallback records) w)) =
     configuration (vars w)).
Proof.
  unfold configuration.
  split; [intros ev w|split; [intros ev w|split; [intros ev w|intros records w]]].
  - destruct (dragStart_vars getBoundingClientRect consumer ev w)
      as (_ & _ & _ & _ & -> & -> & -> & -> & -> & ->). done.
  - by destruct (dragMove_vars consumer ev w) as [-> | ->].
  - by destruct (dragEnd_outcome ev w) as [_ [[-> _]| ->]].
  - by rewrite mutationCallback_vars.
Qed.


(** X13.  [configureDragAndDrop] leaves the page and the drag session
    alone: no style or tree change, and the subject, its rectangle, the
    starting position and the two flags are as before, so a drag in
    progress goes on after a reconfiguration. *)
Theorem configure_leaves_page_and_session (o : DragOptions.t) (w : World) :
  let w' := exec (configureDragAndDrop o) w in
  dom w' = dom w ∧
  dragElement (vars w') = dragElement (vars w) ∧
  dragElementRect (vars w') = dragElementRect (vars w) ∧
  startingMousePosition (vars w') = startingMousePosition (vars w) ∧
  isMouseDown (vars w') = isMouseDown (vars w) ∧
  isDragging (vars w') = isDragging (vars w).
Proof. apply configure_frame. Qed.

End Sessions.

(** ** The nodes of the document across a drop *)

Lemma find_subtree_None e t : e ∉ ids t → find_subtree e t = None.
Proof.
  induction t as [n ks IH] using tree_ind.
  rewrite ids_unfold, not_elem_of_cons. intros [Hn Hks]. simpl.
  rewrite decide_False by done. apply first_some_None.
  rewrite list.Forall_forall in *. intros t Ht. apply (IH t Ht).
  intros ?. apply Hks, elem_of_ids_f. eauto.
Qed.

Lemma prune_f_absent_aux e f :
  Forall (λ t, e ∉ ids t → prune e t = t) f →
  e ∉ ids_f f → prune_f e f = f.
Proof.
  unfold prune_f. induction 1 as [|k r Hk _ IH]; [done|].
  rewrite ids_f_cons, elem_of_app. intros Hno.
  rewrite fmap_cons, Hk by tauto. rewrite filter_cons_True.
  - f_equal. apply IH. tauto.
  - intros <-. apply Hno. left. apply root_in_ids.
Qed.

Lemma prune_absent e t : e ∉ ids t → prune e t = t.
Proof.
  induction t as [n ks IH] using tree_ind.
  rewrite ids_unfold, not_elem_of_cons, prune_unfold. intros [_ Hks].
  f_equal. by apply prune_f_absent_aux.
Qed.

Lemma prune_f_absent e f : e ∉ ids_f f → prune_f e f = f.
Proof.
  apply prune_f_absent_aux, list.Forall_forall. intros t _. apply prune_absent.
Qed.

Lemma prune_f_cons e k r :
  prune_f e (k :: r) =
  if decide (root k = e) then prune_f e r else prune e k :: prune_f e r.
Proof.
  unfold prune_f. rewrite fmap_cons.
  destruct (decide (root k = e)) as [Heq|Hne].
  - rewrite filter_cons_False; [done|]. rewrite root_prune. auto.
  - rewrite filter_cons_True; [done|]. by rewrite root_prune.
Qed.

(** Pruning splits the nodes of a forest into those that stay and those of
    the pruned subtree. *)
Lemma prune_f_splits_aux e f :
  Forall (prune_splits e) f →
  NoDup (ids_f f) → e ∈ ids_f f →
  ∃ s, find_subtree_f e f = Some s ∧
       ids_f f ≡ₚ ids_f (prune_f e f) ++ ids s.
Proof.
  unfold find_subtree_f.
  induction 1 as [|k r Hk _ IH]; intros Hnd He.
  { by apply elem_of_nil in He. }
  rewrite ids_f_cons in Hnd, He.
  apply list.NoDup_app in Hnd as (Hndk & Hdisj & Hndr).
  rewrite first_some_cons, prune_f_cons.
  destruct (decide (root k = e)) as [Hroot|Hroot].
  - assert (e ∉ ids_f r) as Her.
    { apply Hdisj. rewrite <- Hroot. apply root_in_ids. }
    exists k. destruct k as [n ks]. simpl in Hroot. subst n. simpl find_subtree.
    rewrite decide_True by done. split; [done|].
    rewrite prune_f_absent, ids_f_cons by done. apply Permutation_app_comm.
  - destruct (decide (e ∈ ids k)) as [Hek|Hek].
    + destruct (Hk Hndk Hroot Hek) as (s & -> & Hperm). exists s.
      split; [done|].
      rewrite prune_f_absent by (by apply Hdisj).
      rewrite !ids_f_cons, Hperm, <- !app_assoc.
      apply Permutation_app_head, Permutation_app_comm.
    + rewrite find_subtree_None, prune_absent by done.
      apply elem_of_app in He as [?|Her]; [done|].
      destruct (IH Hndr Her) as (s & -> & Hperm). exists s.
      split; [done|]. by rewrite !ids_f_cons, Hperm, <- app_assoc.
Qed.

Lemma prune_splits_tree e t : prune_splits e t.
Proof.
  induction t as [n ks IH] using tree_ind. intros Hnd Hroot He.
  simpl in Hroot. rewrite ids_unfold in Hnd, He.
  apply list.NoDup_cons in Hnd as [_ Hnd].
  apply elem_of_cons in He as [->|He]; [done|].
  destruct (prune_f_splits_aux e ks IH Hnd He) as (s & Hs & Hperm).
  exists s. simpl find_subtree. rewrite decide_False by done.
  split; [exact Hs|].
  rewrite prune_unfold, !ids_unfold. simpl. by rewrite Hperm.
Qed.

Lemma prune_f_splits e f :
  NoDup (ids_f f) → e ∈ ids_f f →
  ∃ s, find_subtree_f e f = Some s ∧
       ids_f f ≡ₚ ids_f (prune_f e f) ++ ids s.
Proof.
  apply prune_f_splits_aux, list.Forall_forall. intros t _.
  apply prune_splits_tree.
Qed.

(** Grafting adds the nodes of the grafted tree, once. *)
Lemma graft_f_adds_aux z s f :
  Forall (graft_adds z s) f →
  NoDup (ids_f f) → z ∈ ids_f f →
  ids_f (graft_f z s f) ≡ₚ ids_f f ++ ids s.
Proof.
  unfold graft_f. induction 1 as [|k r Hk _ IH]; intros Hnd Hz.
  { by apply elem_of_nil in Hz. }
  rewrite ids_f_cons in Hnd, Hz.
  apply list.NoDup_app in Hnd as (Hndk & Hdisj & Hndr).
  rewrite fmap_cons, !ids_f_cons.
  destruct (decide (z ∈ ids k)) as [Hzk|Hzk].
  - assert (graft z s <$> r = r) as ->.
    { apply Hdisj in Hzk. clear -Hzk. induction r as [|t r IHr]; [done|].
      rewrite ids_f_cons, elem_of_app in Hzk. rewrite fmap_cons.
      rewrite graft_absent, IHr; tauto. }
    rewrite (Hk Hndk Hzk), <- !app_assoc.
    apply Permutation_app_head, Permutation_app_comm.
  - rewrite graft_absent by done.
    apply elem_of_app in Hz as [?|Hzr]; [done|].
    by rewrite (IH Hndr Hzr), <- app_assoc.
Qed.

Lemma graft_adds_tree z s t : graft_adds z s t.
Proof.
  induction t as [n ks IH] using tree_ind. intros Hnd Hz.
  rewrite graft_unfold. rewrite ids_unfold in Hnd, Hz.
  apply list.NoDup_cons in Hnd as [Hn Hnd].
  destruct (decide (n = z)) as [->|Hne].
  - by rewrite !ids_unfold, ids_f_app, ids_f_cons, app_nil_r.
  - apply elem_of_cons in Hz as [->|Hz]; [done|].
    rewrite !ids_unfold. simpl.
    by rewrite (graft_f_adds_aux z s ks IH Hnd Hz).
Qed.

Lemma graft_f_adds z s f :
  NoDup (ids_f f) → z ∈ ids_f f →
  ids_f (graft_f z s f) ≡ₚ ids_f f ++ ids s.
Proof.
  apply graft_f_adds_aux, list.Forall_forall. intros t _. apply graft_adds_tree.
Qed.

(** [z.appendChild(e)], when it does not throw, keeps the nodes of the
    document: none is lost and none appears twice. *)
Lemma moved_nodes f z e :
  NoDup (ids_f f) → e ∈ ids_f f → z ∈ ids_f f →
  e ∉ inclusive_ancestors f z →
  ids_f (moved z e f) ≡ₚ ids_f f.
Proof.
  intros Hnd He Hz Hout. unfold moved.
  destruct (prune_f_splits e f Hnd He) as (s & -> & Hperm). simpl.
  pose proof (prune_f_keeps e f z Hz Hout) as Hkeep.
  assert (NoDup (ids_f (prune_f e f))) as Hnd'.
  { rewrite Hperm in Hnd. by apply list.NoDup_app in Hnd as (? & _). }
  by rewrite graft_f_adds, Hperm.
Qed.

(** ** Drops and nested tracked elements *)

Section Drops.

Variable getBoundingClientRect : Dom → elem → DOMRect.
Variable elementFromPoint : Dom → Q → Q → option elem.
Variable other_selector : string → option (Dom → elem → bool).
Variable consumer : fn → list elem → Dom → Dom * bool.

Abbreviation dragStart := (dragStart getBoundingClientRect consumer).
Abbreviation dragEnd := (dragEnd elementFromPoint other_selector consumer).
Abbreviation dispatch :=
  (dispatch getBoundingClientRect elementFromPoint other_selector consumer).
Abbreviation call := (call consumer).
Abbreviation dropzone_found := (dropzone_found elementFromPoint other_selector).
Abbreviation drop_target := (drop_target elementFromPoint other_selector).

(** X10.  With a sound hit-test and callbacks that do not restructure the
    document, a pointer-up with a subject that is in the document keeps the
    nodes of the document: after it the document has the same nodes as
    before, none lost and none repeated, whether the subject was dropped
    into a dropzone or left where it was. *)
Theorem release_keeps_the_nodes_of_the_document
    (ev : MouseEvent) (w : World) (el : elem) :
  hit_test_sound elementFromPoint →
  keeps_document consumer →
  NoDup (ids_f (document (dom w))) →
  dragElement (vars w) = Some el →
  el ∈ ids_f (document (dom w)) →
  let w' := exec (dragEnd ev) w in
  ids_f (document (dom w')) ≡ₚ ids_f (document (dom w)) ∧
  NoDup (ids_f (document (dom w'))).
Proof.
  intros Hhit Hkeep Hnd He Hel. cbv zeta.
  assert (ids_f (document (dom (exec (dragEnd ev) w))) ≡ₚ
          ids_f (document (dom w))) as Hperm.
  { unfold exec.
    rewrite (dragEnd_active elementFromPoint other_selector consumer ev w el He). cbv zeta.
    destruct (dropzone_found el ev w) as [[z|]|] eqn:Ez; [|done..].
    destruct (dropzone_outside_subject elementFromPoint other_selector
                el ev w z Hhit Hnd Ez) as [Hz Hout].
    rewrite decide_False by done.
    pose proof (moved_nodes (document (dom w)) z el Hnd Hel Hz Hout) as Hmoved.
    destruct (dragEndCallback (vars w)) as [f|]; [|exact Hmoved].
    unfold call.
    change (dom (with_dom (dropped_into z el w) (released el w)))
      with (dropped_into z el w).
    pose proof (Hkeep f [el; z] (dropped_into z el w)) as Hdoc.
    destruct (consumer f [el; z] (dropped_into z el w)) as [d' ok].
    simpl in Hdoc. destruct ok; simpl; by rewrite Hdoc. }
  split; [exact Hperm|]. by rewrite Hperm.
Qed.

(** On the way up the path: the nodes before the next tracked one are
    passed in silence, and its listener runs with the tracked node as
    current target. *)
Lemma dispatch_through tgt cx cy (pre : list elem) (t : elem) (rest : list elem) w :
  (∀ n, n ∈ pre →
        filter (λ x : string * handler, x.1 = "mousedown") (listeners w n) = []) →
  filter (λ x : string * handler, x.1 = "mousedown") (listeners w t)
    = [("mousedown", HdragStart)] →
  for_each (pre ++ t :: rest) (λ node,
    ls ← (λ w, (w, Some (listeners w node)));
    for_each (filter (λ x : string * handler, x.1 = "mousedown") ls) (λ x,
      reported (run_handler getBoundingClientRect elementFromPoint other_selector consumer x.2
                  {| clientX := cx; clientY := cy;
                     target := tgt; currentTarget := node |}))) w
  = for_each rest (λ node,
    ls ← (λ w, (w, Some (listeners w node)));
    for_each (filter (λ x : string * handler, x.1 = "mousedown") ls) (λ x,
      reported (run_handler getBoundingClientRect elementFromPoint other_selector consumer x.2
                  {| clientX := cx; clientY := cy;
                     target := tgt; currentTarget := node |})))
      (exec (dragStart {| clientX := cx; clientY := cy;
                          target := tgt; currentTarget := t |}) w).
Proof.
  intros Hpre Ht. rewrite for_each_app. unfold mbind at 1, JS_bind at 1.
  rewrite dispatch_silent by done.
  simpl. unfold mbind at 1, JS_bind at 1. unfold mbind at 1, JS_bind at 1.
  rewrite Ht. simpl. unfold mbind at 1, JS_bind at 1, reported at 1.
  reflexivity.
Qed.

(** X11.  The module never stops the propagation of an event.  When two
    tracked elements lie on the path of a press, [t1] inside [t2], both
    listeners run, the inner one first: the drag-start callback is called
    for [t1] and then for [t2], and the outer element [t2] ends up as the
    drag subject. *)
Theorem press_on_nested_tracked_elements_drags_the_outer
    (w : World) (tgt t1 t2 : elem) (cx cy : Q) (pre mid post : list elem) :
  inclusive_ancestors (document (dom w)) tgt =
    pre ++ t1 :: mid ++ t2 :: post →
  filter (λ x : string * handler, x.1 = "mousedown") (listeners w t1)
    = [("mousedown", HdragStart)] →
  filter (λ x : string * handler, x.1 = "mousedown") (listeners w t2)
    = [("mousedown", HdragStart)] →
  (∀ n, n ∈ pre ++ mid ++ post →
        filter (λ x : string * handler, x.1 = "mousedown") (listeners w n) = []) →
  let w' := exec (dispatch "mousedown" tgt cx cy) w in
  dragElement (vars w') = Some t2 ∧
  ∀ f, dragStartCallback (vars w) = Some f →
       ∃ d2, log w' = log w ++ [PreventDefault; Call f [t1] (dom w);
                                 PreventDefault; Call f [t2] d2].
Proof.
  intros Hpath Ht1 Ht2 Hrest.
  set (ev1 := {| clientX := cx; clientY := cy; target := tgt; currentTarget := t1 |}).
  set (ev2 := {| clientX := cx; clientY := cy; target := tgt; currentTarget := t2 |}).
  set (w1 := exec (dragStart ev1) w).
  assert (listeners w1 = listeners w) as Hl1
    by apply dragStart_listeners.
  assert (dispatch "mousedown" tgt cx cy w = (exec (dragStart ev2) w1, Some ()))
    as E.
  { unfold dispatch. unfold mbind at 1, JS_bind at 1, getdom at 1.
    rewrite Hpath.
    rewrite dispatch_through; [|intros n Hn|exact Ht1].
    2:{ apply Hrest. rewrite elem_of_app. by left. }
    fold ev1. fold w1.
    rewrite dispatch_through; [|intros n Hn|by rewrite Hl1].
    2:{ rewrite Hl1. apply Hrest. rewrite !elem_of_app. auto. }
    fold ev2. apply dispatch_silent. intros n Hn.
    rewrite dragStart_listeners, Hl1. apply Hrest. rewrite !elem_of_app. auto. }
  cbv zeta.
  assert (exec (dispatch "mousedown" tgt cx cy) w = exec (dragStart ev2) w1)
    as ->.
  { unfold exec at 1. by rewrite E. }
  split; [apply dragStart_vars|].
  intros f Hf. exists (dom w1).
  assert (dragStartCallback (vars w1) = Some f) as Hf1.
  { destruct (dragStart_vars getBoundingClientRect consumer ev1 w)
      as (_ & _ & _ & _ & _ & _ & Hcb & _).
    unfold w1. by rewrite Hcb. }
  rewrite dragStart_log, Hf1. unfold w1. rewrite dragStart_log, Hf.
  by rewrite <- app_assoc.
Qed.

(** X14.  A drag-start callback that throws is not contained: the
    exception leaves [dragStart], and the session is half open.  The flags,
    the subject and the rectangle are already set, the page is as the
    callback left it (no style has been written), and the starting position
    is not recorded. *)
Theorem throwing_start_callback_leaves_session_half_open
    (ev : MouseEvent) (w : World) (f : fn) :
  dragStartCallback (vars w) = Some f →
  (consumer f [currentTarget ev] (dom w)).2 = false →
  let w' := exec (dragStart ev) w in
  (dragStart ev w).2 = None ∧
  dom w' = (consumer f [currentTarget ev] (dom w)).1 ∧
  isMouseDown (vars w') = true ∧
  isDragging (vars w') = false ∧
  dragElement (vars w') = Some (currentTarget ev) ∧
  dragElementRect (vars w') =
    Some (getBoundingClientRect (dom w) (currentTarget ev)) ∧
  startingMousePosition (vars w') = startingMousePosition (vars w).
Proof.
  intros Hf Hthrow. cbv zeta. unfold exec.
  rewrite dragStart_run. cbv zeta. rewrite Hf.
  unfold call.
  change (dom (pressed (currentTarget ev)
                 (getBoundingClientRect (dom w) (currentTarget ev)) w))
    with (dom w).
  destruct (consumer f [currentTarget ev] (dom w)) as [d' ok].
  simpl in Hthrow. subst ok. done.
Qed.

(** X15.  A drop callback that throws is not contained either.  It is
    entered after the subject has been moved into the dropzone, on a page
    on which the subject still has the inline declaration [display: none]
    (the assignment of "visible" is ignored); the exception leaves
    [dragEnd] and the clean-up is skipped.  The pressed flag is cleared, but
    the subject, its rectangle and the starting position stay, and the page
    is as the callback left it, inline styles of the drag included. *)
Theorem throwing_drop_callback_skips_the_cleanup
    (ev : MouseEvent) (w : World) (el z : elem) (f : fn) :
  dragElement (vars w) = Some el →
  dragEndCallback (vars w) = Some f →
  drop_target el ev w = Some z →
  let entered := dropped_into z el w in
  (consumer f [el; z] entered).2 = false →
  let w' := exec (dragEnd ev) w in
  style entered el !! "display" = Some (Kw "none") ∧
  parentNode (document entered) el = Some z ∧
  (dragEnd ev w).2 = None ∧
  dom w' = (consumer f [el; z] entered).1 ∧
  isMouseDown (vars w') = false ∧
  dragElement (vars w') = Some el ∧
  dragElementRect (vars w') = dragElementRect (vars w) ∧
  startingMousePosition (vars w') = startingMousePosition (vars w).
Proof.
  intros He Hf Ht entered Hthrow. cbv zeta.
  unfold drop_target in Ht.
  destruct (dropzone_found el ev w) as [[z'|]|] eqn:Ez; [|done..].
  destruct (decide (el ∈ inclusive_ancestors (document (dom w)) z'))
    as [|Hout]; [done|].
  injection Ht as ->.
  assert (z ∈ ids_f (document (dom w))) as Hz
    by apply (dropzone_in_document elementFromPoint other_selector el ev w z Ez).
  split.
  { change (style entered el)
      with (style (style_set el "display" (Kw "none") (dom w)) el).
    rewrite style_set_lookup by done. by rewrite decide_True. }
  split.
  { apply (moved_spec (document (dom w)) z el Hz Hout). }
  unfold exec.
  rewrite (dragEnd_active elementFromPoint other_selector consumer ev w el He).
  cbv zeta. rewrite Ez, decide_False by done. rewrite Hf.
  unfold call.
  change (dom (with_dom (dropped_into z el w) (released el w))) with entered.
  destruct (consumer f [el; z] entered) as [d' ok].
  simpl in Hthrow. subst ok. done.
Qed.

End Drops.

(** ** The further properties on the example pages *)

Lemma example_keeps_document : keeps_document Example.consumer.
Proof. intros f args d. reflexivity. Defined.

(** X3 on the example: the pressed piece carries the three listeners. *)
Lemma every_element_untracked_or_tracked_once_witness :
  reachable Example.getBoundingClientRect Example.elementFromPoint
    Example.other_selector Example.consumer Example.down ∧
  (listeners Example.down Example.piece = [] ∨
   listeners Example.down Example.piece =
   [("mousedown", HdragStart); ("mouseup", HdragEnd); ("mousemove", HdragMove)]).
Proof.
  split; [apply example_down_reachable|].
  apply (every_element_untracked_or_tracked_once
           Example.getBoundingClientRect Example.elementFromPoint
           Example.other_selector Example.consumer Example.down example_down_reachable).
Defined.

(** X5 on the example. *)
Lemma dragStart_freezes_the_footprint_witness :
  returns (dragStart Example.getBoundingClientRect Example.consumer
             (Example.at_piece 100 100)) Example.configured ∧
  style (dom Example.down) Example.piece !! "width" = Some (Px 50) ∧
  style (dom Example.down) Example.piece !! "height" = Some (Px 50) ∧
  style (dom Example.down) Example.piece !! "position" = Some (Kw "absolute") ∧
  startingMousePosition (vars Example.down) = Some {| x := 100; y := 100 |}.
Proof.
  assert (returns (dragStart Example.getBoundingClientRect Example.consumer
                     (Example.at_piece 100 100)) Example.configured) as Hret.
  { vm_compute. eauto. }
  split; [exact Hret|].
  exact (dragStart_freezes_the_footprint
           Example.getBoundingClientRect Example.consumer
           (Example.at_piece 100 100) Example.configured Hret).
Defined.

(** X6 on the example: a second release after the drop. *)
Lemma second_release_witness :
  returns (dragEnd Example.elementFromPoint Example.other_selector Example.consumer
             (Example.at_piece 200 200)) Example.dragged ∧
  dragEnd Example.elementFromPoint Example.other_selector Example.consumer (Example.at_piece 200 200)
    Example.dropped =
  (with_log (log Example.dropped ++ [PreventDefault]) Example.dropped, Some ()).
Proof.
  assert (returns (dragEnd Example.elementFromPoint Example.other_selector Example.consumer
                     (Example.at_piece 200 200)) Example.dragged) as Hret.
  { vm_compute. eauto. }
  split; [exact Hret|].
  exact (second_release_only_prevents_default
           Example.elementFromPoint Example.other_selector Example.consumer
           (Example.at_piece 200 200) (Example.at_piece 200 200)
           Example.dragged Hret).
Defined.

(** X7 on the example. *)
Lemma session_variables_go_together_witness :
  reachable Example.getBoundingClientRect Example.elementFromPoint
    Example.other_selector Example.consumer Example.down ∧
  session_consistent (vars Example.down).
Proof.
  split; [apply example_down_reachable|].
  apply (session_variables_go_together
           Example.getBoundingClientRect Example.elementFromPoint
           Example.other_selector Example.consumer Example.down example_down_reachable).
Defined.

(** X10 on the example: the drop of the piece into the zone. *)
Lemma release_keeps_the_nodes_witness :
  dragElement (vars Example.dragged) = Some Example.piece ∧
  Example.piece ∈ ids_f (document (dom Example.dragged)) ∧
  ids_f (document (dom Example.dropped)) ≡ₚ
    ids_f (document (dom Example.dragged)) ∧
  NoDup (ids_f (document (dom Example.dropped))).
Proof.
  assert (dragElement (vars Example.dragged) = Some Example.piece) as He
    by reflexivity.
  assert (Example.piece ∈ ids_f (document (dom Example.dragged))) as Hin.
  { apply (bool_decide_unpack _). vm_compute. exact I. }
  split; [exact He|]. split; [exact Hin|].
  exact (release_keeps_the_nodes_of_the_document
           Example.elementFromPoint Example.other_selector Example.consumer
           (Example.at_piece 200 200) Example.dragged Example.piece
           example_hit_test_sound example_keeps_document
           example_dragged_NoDup He Hin).
Defined.

(** X11 on the nested page: a press on the leaf. *)
Lemma press_on_nested_witness :
  inclusive_ancestors (document (dom Nested.configured)) Nested.leaf =
    [Nested.leaf] ++ Nested.inner :: [] ++ Nested.outer :: [Nested.board] ∧
  dragElement
    (vars (exec (dispatch Example.getBoundingClientRect Example.elementFromPoint
                   Example.other_selector Example.consumer "mousedown" Nested.leaf 10 10)
             Nested.configured)) = Some Nested.outer.
Proof.
  assert (inclusive_ancestors (document (dom Nested.configured)) Nested.leaf =
          [Nested.leaf] ++ Nested.inner :: [] ++ Nested.outer :: [Nested.board])
    as Hpath by reflexivity.
  split; [exact Hpath|].
  apply (press_on_nested_tracked_elements_drags_the_outer
           Example.getBoundingClientRect Example.elementFromPoint
           Example.other_selector Example.consumer Nested.configured Nested.leaf Nested.inner
           Nested.outer 10%Q 10%Q [Nested.leaf] [] [Nested.board] Hpath).
  - reflexivity.
  - reflexivity.
  - intros n Hn. apply elem_of_cons in Hn as [->|Hn]; [reflexivity|].
    apply list_elem_of_singleton in Hn as ->. reflexivity.
Defined.

(** X14 on the example: the start callback throws. *)
Lemma throwing_start_callback_witness :
  dragStartCallback (vars Example.configured) = Some 11 ∧
  (dragStart Example.getBoundingClientRect Example.throwing
     (Example.at_piece 100 100) Example.configured).2 = None ∧
  dragElement
    (vars (exec (dragStart Example.getBoundingClientRect Example.throwing
                   (Example.at_piece 100 100)) Example.configured))
    = Some Example.piece.
Proof.
  assert (dragStartCallback (vars Example.configured) = Some 11) as Hf
    by reflexivity.
  split; [exact Hf|].
  destruct (throwing_start_callback_leaves_session_half_open
              Example.getBoundingClientRect Example.throwing
              (Example.at_piece 100 100) Example.configured 11 Hf eq_refl)
    as (Hthrow & _ & _ & _ & Hel & _).
  split; [exact Hthrow|exact Hel].
Defined.

(** X15 on the example: the drop callback throws. *)
Lemma throwing_drop_callback_witness :
  dragElement (vars Example.dragged) = Some Example.piece ∧
  dragEndCallback (vars Example.dragged) = Some 12 ∧
  drop_target Example.elementFromPoint Example.other_selector Example.piece
    (Example.at_piece 200 200) Example.dragged = Some Example.zone ∧
  (dragEnd Example.elementFromPoint Example.other_selector Example.throwing
     (Example.at_piece 200 200) Example.dragged).2 = None ∧
  dragElement
    (vars (exec (dragEnd Example.elementFromPoint Example.other_selector
                   Example.throwing (Example.at_piece 200 200))
             Example.dragged))
    = Some Example.piece.
Proof.
  assert (dragElement (vars Example.dragged) = Some Example.piece) as He
    by reflexivity.
  assert (dragEndCallback (vars Example.dragged) = Some 12) as Hf
    by reflexivity.
  assert (drop_target Example.elementFromPoint Example.other_selector
            Example.piece (Example.at_piece 200 200) Example.dragged
          = Some Example.zone) as Hz by reflexivity.
  split; [exact He|]. split; [exact Hf|]. split; [exact Hz|].
  destruct (throwing_drop_callback_skips_the_cleanup
              Example.elementFromPoint Example.other_selector Example.throwing
              (Example.at_piece 200 200) Example.dragged
              Example.piece Example.zone 12 He Hf Hz eq_refl)
    as (_ & _ & Hthrow & _ & _ & Hel & _).
  split; [exact Hthrow|exact Hel].
Defined.

(** X1 on the example: run on the grown page, the configuration attaches
    to the marked icon, which the watcher passes over. *)
Lemma configure_attaches_witness :
  plain_name (marker_after Example.options (vars Example.grown)) = true ∧
  listeners (exec (configureDragAndDrop Example.other_selector Example.options)
               Example.grown) Example.icon =
    [("mousedown", HdragStart); ("mouseup", HdragEnd); ("mousemove", HdragMove)] ∧
  listeners (exec (configureDragAndDrop Example.other_selector Example.options)
               Example.grown) Example.caption = [].
Proof.
  assert (plain_name (marker_after Example.options (vars Example.grown)) = true)
    as Hp by reflexivity.
  split; [exact Hp|].
  destruct (configure_attaches_to_marked_document_nodes
              Example.other_selector Example.options Example.grown)
    as [_ Hplain].
  split; rewrite (Hplain Hp); reflexivity.
Defined.

(** X2 on a document without a body: the call throws after attaching and
    constructing, with nothing registered. *)
Lemma configure_without_body_witness :
  body (dom (initial_world Bare.page)) = None ∧
  ¬ returns (configureDragAndDrop Example.other_selector Example.options)
      (initial_world Bare.page) ∧
  registered (exec (configureDragAndDrop Example.other_selector Example.options)
                (initial_world Bare.page)) = [] ∧
  observer (vars (exec (configureDragAndDrop Example.other_selector
                          Example.options) (initial_world Bare.page)))
    = Some 0.
Proof.
  assert (body (dom (initial_world Bare.page)) = None) as Hb by reflexivity.
  split; [exact Hb|].
  destruct (configure_warns_when_nothing_matches
              Example.other_selector Example.options (initial_world Bare.page))
    as (Hret & _ & Hobs & Hreg).
  split.
  { rewrite Hret. intros [_ [b Hsome]]. rewrite Hb in Hsome. discriminate. }
  split; [exact (Hreg Hb)|]. exact (proj1 Hobs).
Defined.

(** With a marker that is no selector the call throws at once: the options
    are stored, and nothing is logged, attached or constructed. *)
Remark configure_with_a_colon_marker_throws :
  let w := exec (configureDragAndDrop Example.other_selector Bare.colon_options)
             (initial_world Example.page) in
  ¬ returns (configureDragAndDrop Example.other_selector Bare.colon_options)
      (initial_world Example.page) ∧
  draggableAttribute (vars w) = Some "x:drag" ∧
  log w = [] ∧ observer (vars w) = None ∧ constructed w = 0 ∧
  listeners w Example.piece = [].
Proof.
  cbv zeta. split; [|repeat split; reflexivity].
  intros [u Hu]. vm_compute in Hu. discriminate.
Qed.
